(** * Event Sweeper: a shallow embedding of [events_deletion.py]

    The development follows the source file top-down: Python values the
    program manipulates (strings, naive [datetime] objects, event
    dictionaries), the two library calls the classification relies on
    ([re.search] with the pattern of line 107 and [datetime.strptime] with the
    three formats of lines 110, 123 and 126), the calendar service seen as an
    oracle, and then the methods of [EventDeletion] with the same names and
    the same control flow.  Exceptions are values of [result]; the only
    mutable state of the program ([self.deleted_events]) lives in [World]
    together with what the program does to the outside (API calls, lines
    printed, pauses). *)

From Stdlib Require Import ZArith NArith Lia List Ascii String Bool DecimalString.
From stdpp Require Import base gmap strings list.

Local Open Scope string_scope.
Local Open Scope nat_scope.

(** ** Python strings

    A Python [str] is a sequence of code points.  It is held here as a
    [string], the bytes of its UTF-8 encoding, which is also how the string
    literals of this file are read.  Slices, [strip], [int] and the character
    classes of [re] count and test code points, not bytes: the functions
    below go through [Utf8.next]. *)

Module Utf8.

Definition is_cont (c : ascii) : bool :=
  (128 <=? nat_of_ascii c) && (nat_of_ascii c <=? 191).

(** The number of continuation bytes a leading byte announces. *)
Definition tail_length (c : ascii) : nat :=
  let n := nat_of_ascii c in
  if n <? 192 then 0
  else if n <? 224 then 1
  else if n <? 240 then 2
  else if n <? 248 then 3
  else 0.

(** The first code point of [s], as the bytes that encode it, and the rest
    of [s].  A byte that does not start a complete sequence is taken alone;
    it is the text of no code point. *)
Definition next (s : string) : option (string * string) :=
  match s with
  | EmptyString => None
  | String a s1 =>
      let alone := (String a EmptyString, s1) in
      Some
        match tail_length a with
        | 1 =>
            match s1 with
            | String b s2 =>
                if is_cont b then (String a (String b EmptyString), s2) else alone
            | _ => alone
            end
        | 2 =>
            match s1 with
            | String b (String c s3) =>
                if is_cont b && is_cont c
                then (String a (String b (String c EmptyString)), s3)
                else alone
            | _ => alone
            end
        | 3 =>
            match s1 with
            | String b (String c (String d s4)) =>
                if is_cont b && is_cont c && is_cont d
                then (String a (String b (String c (String d EmptyString))), s4)
                else alone
            | _ => alone
            end
        | _ => alone
        end
  end.

(** The payload of a continuation byte. *)
Definition low6 (c : ascii) : N := (N_of_ascii c - 128)%N.

(** The code point that the bytes [g] encode, if they are the encoding of
    one (shortest form only). *)
Definition code (g : string) : option N :=
  match g with
  | String a EmptyString =>
      if (N_of_ascii a <? 128)%N then Some (N_of_ascii a) else None
  | String a (String b EmptyString) =>
      let n := ((N_of_ascii a - 192) * 64 + low6 b)%N in
      if (tail_length a =? 1) && is_cont b && (128 <=? n)%N then Some n else None
  | String a (String b (String c EmptyString)) =>
      let n := ((N_of_ascii a - 224) * 4096 + low6 b * 64 + low6 c)%N in
      if (tail_length a =? 2) && is_cont b && is_cont c && (2048 <=? n)%N
      then Some n else None
  | String a (String b (String c (String d EmptyString))) =>
      let n := ((N_of_ascii a - 240) * 262144 + low6 b * 4096 + low6 c * 64
                + low6 d)%N in
      if (tail_length a =? 3) && is_cont b && is_cont c && is_cont d
         && (65536 <=? n)%N && (n <? 1114112)%N
      then Some n else None
  | _ => None
  end.

Fixpoint chars_upto (n : nat) (s : string) : list string :=
  match n with
  | 0 => []
  | S n' =>
      match next s with
      | Some (c, r) => c :: chars_upto n' r
      | None => []
      end
  end.

(** [list(s)]: the code points of [s], each as its bytes. *)
Definition chars (s : string) : list string := chars_upto (String.length s) s.

(** [''.join(cs)] *)
Definition join (cs : list string) : string := fold_right append EmptyString cs.

End Utf8.

Module PyStr.

(** [s[:n]] *)
Fixpoint take (n : nat) (s : string) : string :=
  match n with
  | 0 => EmptyString
  | S n' =>
      match Utf8.next s with
      | Some (c, r) => c ++ take n' r
      | None => EmptyString
      end
  end.

(** [s[n:]] *)
Fixpoint drop (n : nat) (s : string) : string :=
  match n with
  | 0 => s
  | S n' =>
      match Utf8.next s with
      | Some (_, r) => drop n' r
      | None => EmptyString
      end
  end.

(** [s.startswith(p)] *)
Fixpoint startswith (p s : string) : bool :=
  match p, s with
  | EmptyString, _ => true
  | String a p', String b s' => if ascii_dec a b then startswith p' s' else false
  | String _ _, EmptyString => false
  end.

(** [needle in hay] on strings: some suffix of [hay] starts with [needle].
    The needle of line 105 is ASCII and an ASCII byte is always a code point
    of its own, so the suffixes can be taken byte by byte. *)
Fixpoint contains (needle hay : string) : bool :=
  startswith needle hay ||
  match hay with
  | EmptyString => false
  | String _ hay' => contains needle hay'
  end.

(** The code points of general category Nd come in runs of ten, each from
    the zero of a script; these are the zeros (Unicode 14.0, the database of
    CPython 3.11). *)
Definition decimal_zeros : list N :=
  [48; 1632; 1776; 1984; 2406; 2534; 2662; 2790; 2918; 3046; 3174; 3302; 3430;
   3558; 3664; 3792; 3872; 4160; 4240; 6112; 6160; 6470; 6608; 6784; 6800;
   6992; 7088; 7232; 7248; 42528; 43216; 43264; 43472; 43504; 43600; 44016;
   65296; 66720; 68912; 69734; 69872; 69942; 70096; 70384; 70736; 70864;
   71248; 71360; 71472; 71904; 72016; 72784; 73040; 73120; 92768; 92864;
   93008; 120782; 120792; 120802; 120812; 120822; 123200; 123632; 125264;
   130032]%N.

(** The value of a decimal digit: what [\d] matches and [int] converts. *)
Definition decimal (c : string) : option nat :=
  match Utf8.code c with
  | Some n =>
      match find (fun z => (z <=? n)%N && (n <? z + 10)%N) decimal_zeros with
      | Some z => Some (N.to_nat (n - z))
      | None => None
      end
  | None => None
  end.

Definition is_digit (c : string) : bool :=
  match decimal c with
  | Some _ => true
  | None => false
  end.

(** The code points [str.isspace] accepts, which [str.strip()] removes. *)
Definition spaces : list N :=
  [9; 10; 11; 12; 13; 28; 29; 30; 31; 32; 133; 160; 5760; 8192; 8193; 8194;
   8195; 8196; 8197; 8198; 8199; 8200; 8201; 8202; 8232; 8233; 8239; 8287;
   12288]%N.

Definition is_space (c : string) : bool :=
  match Utf8.code c with
  | Some n => existsb (N.eqb n) spaces
  | None => false
  end.

Fixpoint lstrip_chars (cs : list string) : list string :=
  match cs with
  | c :: cs' => if is_space c then lstrip_chars cs' else cs
  | [] => []
  end.

(** The trailing run of blanks is dropped: a blank is kept only when
    something non-blank remains after it. *)
Fixpoint rstrip_chars (cs : list string) : list string :=
  match cs with
  | [] => []
  | c :: cs' =>
      match rstrip_chars cs' with
      | [] => if is_space c then [] else [c]
      | r => c :: r
      end
  end.

Definition lstrip (s : string) : string := Utf8.join (lstrip_chars (Utf8.chars s)).
Definition rstrip (s : string) : string := Utf8.join (rstrip_chars (Utf8.chars s)).

Definition strip (s : string) : string :=
  Utf8.join (rstrip_chars (lstrip_chars (Utf8.chars s))).

Definition digit_char (n : nat) : ascii := ascii_of_nat (48 + n mod 10).

(** [n] in decimal, zero padded to exactly [w] digits (the [%04d], [%02d]
    and [%06d] conversions used by [datetime.isoformat]). *)
Fixpoint pad_dec (w n : nat) : string :=
  match w with
  | 0 => EmptyString
  | S w' => pad_dec w' (n / 10) ++ String (digit_char n) EmptyString
  end.

(** [int(s)] for a string of decimal digits; leading blanks are skipped the
    way [int] does (the [%d] directive may capture [" 7"]). *)
Definition int_digits (acc : nat) (cs : list string) : nat :=
  fold_left (fun acc c => match decimal c with
                          | Some v => 10 * acc + v
                          | None => acc
                          end) cs acc.

Definition int (s : string) : nat := int_digits 0 (Utf8.chars s).

End PyStr.

(** ** A fragment of Python regular expressions

    Both library calls are regular-expression matches.  The patterns involved
    are concatenations of groups, each group an ordered choice between
    fixed-length sequences of character classes, so the matcher below is the
    usual backtracking one restricted to that shape: alternatives are tried
    from left to right and the first overall success wins.  The patterns are
    [str] patterns compiled without [re.ASCII]: a class consumes one code
    point, and [\d] is any decimal digit. *)

Module Re.

Inductive cclass : Type :=
  | Digit                        (* \d *)
  | Range (lo hi : ascii)        (* [lo-hi] *)
  | Lit (c : ascii)              (* the character itself *)
  | LitI (c : ascii).            (* the character, under re.IGNORECASE *)

Definition lower (c : ascii) : ascii :=
  let n := nat_of_ascii c in
  if (65 <=? n) && (n <=? 90) then ascii_of_nat (n + 32) else c.

(** Whether the class accepts the code point with the bytes [c].  The
    literals and the bounds of the patterns in use are ASCII, and the
    literals under [re.IGNORECASE] ([-], [:], [T]) have no case variant
    outside ASCII. *)
Definition accepts (k : cclass) (c : string) : bool :=
  match k with
  | Digit => PyStr.is_digit c
  | Range lo hi =>
      match c with
      | String b EmptyString =>
          (nat_of_ascii b <? 128) &&
          (nat_of_ascii lo <=? nat_of_ascii b) && (nat_of_ascii b <=? nat_of_ascii hi)
      | _ => false
      end
  | Lit a =>
      match c with
      | String b EmptyString =>
          (nat_of_ascii b <? 128) && (if ascii_dec a b then true else false)
      | _ => false
      end
  | LitI a =>
      match c with
      | String b EmptyString =>
          (nat_of_ascii b <? 128) &&
          (if ascii_dec (lower a) (lower b) then true else false)
      | _ => false
      end
  end.

(** Match a sequence of classes at the head of [s]: the text matched and
    what follows it. *)
Fixpoint match_seq (ks : list cclass) (s : string) : option (string * string) :=
  match ks with
  | [] => Some (EmptyString, s)
  | k :: ks' =>
      match Utf8.next s with
      | Some (c, s') =>
          if accepts k c then
            match match_seq ks' s' with
            | Some (m, r) => Some (c ++ m, r)
            | None => None
            end
          else None
      | None => None
      end
  end.

(** Match a concatenation of groups at the head of [s], backtracking over the
    alternatives of each group; returns the text captured by each group and
    the rest of the string. *)
Fixpoint match_groups (gs : list (list (list cclass))) (s : string)
  : option (list string * string) :=
  match gs with
  | [] => Some ([], s)
  | alts :: gs' =>
      (fix first_alt (alts : list (list cclass)) : option (list string * string) :=
         match alts with
         | [] => None
         | a :: more =>
             match match_seq a s with
             | Some (m, r) =>
                 match match_groups gs' r with
                 | Some (caps, rest) => Some (m :: caps, rest)
                 | None => first_alt more
                 end
             | None => first_alt more
             end
         end) alts
  end.

Definition lits (s : string) : list cclass := map Lit (list_ascii_of_string s).

Definition rep (n : nat) (k : cclass) : list cclass := repeat k n.

(** The group of line 107: [\d{8}T\d{6}Z]. *)
Definition until_group : list cclass :=
  rep 8 Digit ++ [Lit "T"%char] ++ rep 6 Digit ++ [Lit "Z"%char].

(** [re.match(r"UNTIL=(\d{8}T\d{6}Z)", s)]: the captured group. *)
Definition match_until (s : string) : option string :=
  match match_seq (lits "UNTIL=") s with
  | Some (_, r) =>
      match match_seq until_group r with
      | Some (g, _) => Some g
      | None => None
      end
  | None => None
  end.

(** [re.search(r"UNTIL=(\d{8}T\d{6}Z)", s, re.M)], giving [result.group(1)]:
    the match starting at the leftmost possible position.  The pattern has no
    anchor, so [re.M] changes nothing.  The positions are tried byte by byte:
    the pattern starts with an ASCII letter, and an ASCII byte is always the
    start of a code point. *)
Fixpoint search_until (s : string) : option string :=
  match match_until s with
  | Some g => Some g
  | None =>
      match s with
      | String _ s' => search_until s'
      | EmptyString => None
      end
  end.

End Re.

(** ** Naive [datetime] objects *)

Record datetime : Type := mk_datetime {
  year : nat; month : nat; day : nat;
  hour : nat; minute : nat; second : nat; microsecond : nat
}.

Module Datetime.

Definition is_leap (y : nat) : bool :=
  ((y mod 4 =? 0) && negb (y mod 100 =? 0)) || (y mod 400 =? 0).

Definition days_in_month (y m : nat) : nat :=
  match m with
  | 1 | 3 | 5 | 7 | 8 | 10 | 12 => 31
  | 4 | 6 | 9 | 11 => 30
  | 2 => if is_leap y then 29 else 28
  | _ => 0
  end.

(** The checks of the [datetime] constructor; anything else is a
    [ValueError]. *)
Definition valid (d : datetime) : bool :=
  (1 <=? year d) && (year d <=? 9999) &&
  (1 <=? month d) && (month d <=? 12) &&
  (1 <=? day d) && (day d <=? days_in_month (year d) (month d)) &&
  (hour d <=? 23) && (minute d <=? 59) && (second d <=? 59) &&
  (microsecond d <=? 999999).

Definition key (d : datetime) : list nat :=
  [year d; month d; day d; hour d; minute d; second d; microsecond d].

(** Tuple comparison, as [datetime._cmp] does on the seven fields. *)
Fixpoint lex_lt (a b : list nat) : bool :=
  match a, b with
  | x :: a', y :: b' => (x <? y) || ((x =? y) && lex_lt a' b')
  | [], _ :: _ => true
  | _, [] => false
  end.

(** [a < b] on naive datetimes. *)
Definition lt (a b : datetime) : bool := lex_lt (key a) (key b).

(** [str(d)], that is [d.isoformat(sep)] with the fraction printed only when
    it is not zero. *)
Definition format (sep : string) (d : datetime) : string :=
  PyStr.pad_dec 4 (year d) ++ "-" ++ PyStr.pad_dec 2 (month d) ++ "-" ++
  PyStr.pad_dec 2 (day d) ++ sep ++
  PyStr.pad_dec 2 (hour d) ++ ":" ++ PyStr.pad_dec 2 (minute d) ++ ":" ++
  PyStr.pad_dec 2 (second d) ++
  (if microsecond d =? 0 then EmptyString else "." ++ PyStr.pad_dec 6 (microsecond d)).

Definition isoformat (d : datetime) : string := format "T" d.
Definition str (d : datetime) : string := format " " d.

(** *** [datetime.strptime]

    CPython turns the format into a regular expression (one named group per
    directive, literal characters escaped), compiles it with
    [re.IGNORECASE], matches it at the start of the input, refuses input
    left over, converts the groups with [int] and calls the constructor.
    Every failure is a [ValueError]. *)

Inductive directive : Type := dY | dm | dd | dH | dM | dS.

Inductive fmt_item : Type :=
  | FDir (d : directive)
  | FLit (c : ascii).

Definition R (lo hi : string) : Re.cclass :=
  match lo, hi with
  | String a _, String b _ => Re.Range a b
  | _, _ => Re.Digit
  end.

Definition L (c : string) : Re.cclass :=
  match c with
  | String a _ => Re.Lit a
  | _ => Re.Digit
  end.

(** The table of [_strptime.TimeRE] for the directives in use. *)
Definition directive_regex (d : directive) : list (list Re.cclass) :=
  let D := Re.Digit in
  match d with
  | dY => [[D; D; D; D]]
  | dm => [[L "1"; R "0" "2"]; [L "0"; R "1" "9"]; [R "1" "9"]]
  | dd => [[L "3"; R "0" "1"]; [R "1" "2"; D]; [L "0"; R "1" "9"]; [R "1" "9"];
           [L " "; R "1" "9"]]
  | dH => [[L "2"; R "0" "3"]; [R "0" "1"; D]; [D]]
  | dM => [[R "0" "5"; D]; [D]]
  | dS => [[L "6"; R "0" "1"]; [R "0" "5"; D]; [D]]
  end.

Definition item_regex (i : fmt_item) : list (list Re.cclass) :=
  match i with
  | FDir d => directive_regex d
  | FLit c => [[Re.LitI c]]
  end.

(** Defaults of [_strptime] for fields the format does not mention. *)
Definition epoch : datetime := mk_datetime 1900 1 1 0 0 0 0.

Definition set_field (d : directive) (v : nat) (t : datetime) : datetime :=
  match d with
  | dY => mk_datetime v (month t) (day t) (hour t) (minute t) (second t) (microsecond t)
  | dm => mk_datetime (year t) v (day t) (hour t) (minute t) (second t) (microsecond t)
  | dd => mk_datetime (year t) (month t) v (hour t) (minute t) (second t) (microsecond t)
  | dH => mk_datetime (year t) (month t) (day t) v (minute t) (second t) (microsecond t)
  | dM => mk_datetime (year t) (month t) (day t) (hour t) v (second t) (microsecond t)
  | dS => mk_datetime (year t) (month t) (day t) (hour t) (minute t) v (microsecond t)
  end.

Fixpoint fill (fmt : list fmt_item) (caps : list string) (t : datetime) : datetime :=
  match fmt, caps with
  | FDir d :: fmt', c :: caps' => fill fmt' caps' (set_field d (PyStr.int c) t)
  | FLit _ :: fmt', _ :: caps' => fill fmt' caps' t
  | _, _ => t
  end.

(** [datetime.strptime(s, fmt)]; [None] stands for the [ValueError]. *)
Definition strptime (s : string) (fmt : list fmt_item) : option datetime :=
  match Re.match_groups (map item_regex fmt) s with
  | Some (caps, EmptyString) =>
      let t := fill fmt caps epoch in
      if valid t then Some t else None
  | _ => None
  end.

(** ["%Y%m%dT%H%M"] *)
Definition fmt_until : list fmt_item :=
  [FDir dY; FDir dm; FDir dd; FLit "T"; FDir dH; FDir dM].

(** ["%Y-%m-%dT%H:%M:%S"] *)
Definition fmt_datetime : list fmt_item :=
  [FDir dY; FLit "-"; FDir dm; FLit "-"; FDir dd; FLit "T";
   FDir dH; FLit ":"; FDir dM; FLit ":"; FDir dS].

(** ["%Y-%m-%d"] *)
Definition fmt_date : list fmt_item :=
  [FDir dY; FLit "-"; FDir dm; FLit "-"; FDir dd].

End Datetime.

(** ** Exceptions *)

Inductive exn : Type :=
  | HttpError (status : nat) (msg : string)   (* googleapiclient.errors.HttpError *)
  | ValueError (msg : string)
  | TypeError (msg : string)
  | KeyError (msg : string)
  | OtherException (msg : string).

(** [str(error)] *)
Definition exn_str (e : exn) : string :=
  match e with
  | HttpError _ m | ValueError m | TypeError m | KeyError m | OtherException m => m
  end.

Inductive result (A : Type) : Type :=
  | Ok (a : A)
  | Raise (e : exn).
Arguments Ok {A} a.
Arguments Raise {A} e.

#[global] Instance result_ret : MRet result := fun A a => Ok a.
#[global] Instance result_bind : MBind result := fun A B f m =>
  match m with
  | Ok a => f a
  | Raise e => Raise e
  end.

(** ** Events, as the Calendar API delivers them *)

Record EventTime : Type := mk_EventTime {
  dateTime : option string;      (* "dateTime": RFC 3339 date-time *)
  date : option string           (* "date": all-day events *)
}.

Record Event : Type := mk_Event {
  id_ : string;                            (* event["id"] *)
  recurringEventId : option string;
  recurrence : option (list string);
  start : EventTime;
  end_ : EventTime;                        (* event["end"] *)
  summary : option string
}.

(** The two values [_get_datetime] receives for [key]. *)
Inductive time_key : Type := key_start | key_end.

Definition event_item (event : Event) (key : time_key) : EventTime :=
  match key with
  | key_start => start event
  | key_end => end_ event
  end.

(** ** The calendar service

    The program sees the service through three calls.  What the service
    answers is an input of the program: an oracle that may look at everything
    the program asked before (so that, say, deleting a series can make a
    later deletion of one of its instances answer 410). *)

Record ListRequest : Type := mk_ListRequest {
  calendarId : string;
  timeMin : string;
  timeMax : string;
  maxResults : nat;
  singleEvents : bool;
  pageToken : option string;
  orderBy : string
}.

Record Page : Type := mk_Page {
  items : list Event;                      (* events["items"] *)
  nextPageToken : option string            (* events.get("nextPageToken") *)
}.

Inductive api_event : Type :=
  | ApiList (req : ListRequest) (resp : result Page)
  | ApiGet (calendar eventId : string) (resp : result Event)
  | ApiDelete (calendar eventId sendUpdates : string) (resp : result unit).

Record Service : Type := mk_Service {
  svc_list : list api_event -> ListRequest -> result Page;
  svc_get : list api_event -> string -> result Event;
  svc_delete : list api_event -> string -> result unit
}.

(** ** The object and the world around it *)

(** The attributes of [EventDeletion] that never change after [__init__]. *)
Record EventDeletion : Type := mk_EventDeletion {
  time_min : datetime;
  time_max : datetime;
  confirm_delete : bool;
  service : Service
}.

(** What changes during a run: [self.deleted_events], the calls made to the
    service with their answers, the lines printed, the number of
    [time.sleep(0.1)] pauses.  [attempts] is a history variable, not read by
    the program: the identifier and the [result] string of every status line
    printed, in order. *)
Record World : Type := mk_World {
  deleted_events : gset string;
  calls : list api_event;
  stdout : list string;
  sleeps : nat;
  attempts : list (string * string)
}.

(** [self.deleted_events = set()], nothing done yet. *)
Definition init_world : World := mk_World ∅ [] [] 0 [].

Definition record_call (c : api_event) (w : World) : World :=
  mk_World (deleted_events w) (calls w ++ [c]) (stdout w) (sleeps w) (attempts w).

Definition print (line : string) (w : World) : World :=
  mk_World (deleted_events w) (calls w) (stdout w ++ [line]) (sleeps w) (attempts w).

Definition sleep (w : World) : World :=
  mk_World (deleted_events w) (calls w) (stdout w) (S (sleeps w)) (attempts w).

(** [self.deleted_events.add(event_id)] *)
Definition add_deleted (event_id : string) (w : World) : World :=
  mk_World ({[event_id]} ∪ deleted_events w) (calls w) (stdout w) (sleeps w) (attempts w).

Definition note_attempt (event_id res : string) (w : World) : World :=
  mk_World (deleted_events w) (calls w) (stdout w) (sleeps w)
           (attempts w ++ [(event_id, res)]).

(** ** The methods of [EventDeletion] *)

(** [datetime.strptime], as a computation that may raise. *)
Definition strptime (s : string) (fmt : list Datetime.fmt_item) : result datetime :=
  match Datetime.strptime s fmt with
  | Some d => Ok d
  | None => Raise (ValueError "time data does not match format")
  end.

(** Lines 95-97. *)
Definition _is_recurrent (event : Event) : bool :=
  match recurringEventId event with
  | Some _ => true
  | None => false
  end.

(** Lines 118-128. *)
Definition _get_datetime (event : Event) (key : time_key) : result datetime :=
  match dateTime (event_item event key) with
  | Some s => strptime (PyStr.take 19 s) Datetime.fmt_datetime
  | None =>
      match date (event_item event key) with
      | Some s => strptime s Datetime.fmt_date
      | None => Raise (TypeError "strptime() argument 1 must be str, not None")
      end
  end.

(** Lines 104-114: the [for] loop over [event["recurrence"]]. *)
Fixpoint scan_recurrence (time_max : datetime) (recs : list string) : result bool :=
  match recs with
  | [] => Ok false
  | rec :: recs' =>
      if PyStr.contains "RRULE" rec then
        match Re.search_until rec with
        | Some g =>
            until ← strptime (PyStr.take 13 g) Datetime.fmt_until;
            if Datetime.lt until time_max then Ok true
            else scan_recurrence time_max recs'
        | None => scan_recurrence time_max recs'
        end
      else scan_recurrence time_max recs'
  end.

(** Lines 99-116. *)
Definition _event_is_passed (self : EventDeletion) (event : Event) : result bool :=
  match recurrence event with
  | Some recs => scan_recurrence (time_max self) recs
  | None =>
      d ← _get_datetime event key_end;
      Ok (Datetime.lt d (time_max self))
  end.

(** Line 162. *)
Definition status_line (res : string) (event_date : datetime) (event : Event) : string :=
  let recurrent_tag :=
    match recurrence event with
    | Some _ => "[Recurent event] - "
    | None => EmptyString
    end in
  let summary := PyStr.strip (default EmptyString (summary event)) in
  res ++ " - " ++ Datetime.str event_date ++ " - " ++ recurrent_tag ++ summary.

(** Lines 138-157: the part of the [try] block after the membership test,
    with its [except] clauses; gives the world and the value of [result]. *)
Definition attempt_delete (self : EventDeletion) (w : World) (event_id : string)
  : World * string :=
  if confirm_delete self then
    let w0 := sleep w in
    let resp := svc_delete (service self) (calls w0) event_id in
    let w1 := record_call (ApiDelete "primary" event_id "none" resp) w0 in
    match resp with
    | Ok _ => (add_deleted event_id w1, "DELETED")
    | Raise (HttpError status msg) =>
        if status =? 410 then (w1, "ALREADY DELETED")
        else (print msg w1, "FAILED ")
    | Raise error => (print (exn_str error) w1, "FAILED ")
    end
  else (add_deleted event_id w, "DELETED").

(** Lines 130-162. *)
Definition _delete_event (self : EventDeletion) (w : World) (event : Event)
  : result World :=
  let event_id := id_ event in
  if bool_decide (event_id ∈ deleted_events w) then Ok w
  else
    let '(w1, res) := attempt_delete self w event_id in
    event_date ← _get_datetime event key_start;
    Ok (note_attempt event_id res (print (status_line res event_date event) w1)).

(** Lines 76-89: the body of the [for] loop. *)
Definition process_event (self : EventDeletion) (w : World) (event : Event)
  : result World :=
  w1 ← (if _is_recurrent event then
          match recurringEventId event with
          | Some rid =>
              let resp := svc_get (service self) (calls w) rid in
              let w0 := record_call (ApiGet "primary" rid resp) w in
              rec_event ← resp;
              passed ← _event_is_passed self rec_event;
              if passed : bool then _delete_event self w0 rec_event else Ok w0
          | None => Raise (KeyError "recurringEventId")
          end
        else Ok w);
  passed ← _event_is_passed self event;
  if passed : bool then _delete_event self w1 event else Ok w1.

(** Line 75: [for event in events["items"]]. *)
Fixpoint process_items (self : EventDeletion) (w : World) (events : list Event)
  : result World :=
  match events with
  | [] => Ok w
  | event :: rest =>
      w' ← process_event self w event;
      process_items self w' rest
  end.

(** Lines 62-72. *)
Definition list_request (self : EventDeletion) (page_token : option string)
  : ListRequest :=
  {| calendarId := "primary";
     timeMin := Datetime.isoformat (time_min self) ++ "Z";
     timeMax := Datetime.isoformat (time_max self) ++ "Z";
     maxResults := 100;
     singleEvents := true;
     pageToken := page_token;
     orderBy := "startTime" |}.

(** [not page_token] *)
Definition token_falsy (page_token : option string) : bool :=
  match page_token with
  | None => true
  | Some EmptyString => true
  | Some _ => false
  end.

(** How a run of the [while True] loop stands after a number of
    iterations. *)
Inductive run : Type :=
  | Finished (w : World)                              (* [break] reached *)
  | Aborted (e : exn)                                 (* an exception left the loop *)
  | Running (w : World) (page_token : option string). (* next iteration pending *)

(** Lines 60-93, at most [fuel] iterations. *)
Fixpoint delete_events_from (fuel : nat) (self : EventDeletion) (w : World)
  (page_token : option string) : run :=
  match fuel with
  | 0 => Running w page_token
  | S fuel' =>
      let req := list_request self page_token in
      let resp := svc_list (service self) (calls w) req in
      let w0 := record_call (ApiList req resp) w in
      match resp with
      | Raise e => Aborted e
      | Ok events =>
          match process_items self w0 (items events) with
          | Raise e => Aborted e
          | Ok w1 =>
              let page_token := nextPageToken events in
              if token_falsy page_token then Finished w1
              else delete_events_from fuel' self w1 page_token
          end
      end
  end.

(** Lines 56-93. *)
Definition delete_events (fuel : nat) (self : EventDeletion) (w : World) : run :=
  delete_events_from fuel self w None.

(** Line 207: [len(ed.deleted_events)]. *)
Definition reported_count (w : World) : nat := size (deleted_events w).

(** [__init__], lines 24-32, without the credential exchange: the object and
    the world it starts in.  [confirm_delete] defaults to [False]. *)
Definition __init__ (svc : Service) (time_min time_max : datetime)
  (confirm_delete : option bool) : EventDeletion * World :=
  (mk_EventDeletion time_min time_max (default false confirm_delete) svc, init_world).

(** ** Vocabulary of the specification *)

(** The rule string [rec] contains an RRULE whose UNTIL parameter (the
    leftmost text matching the pattern) has the form YYYYMMDDTHHMMSSZ and
    whose first 13 characters, read as %Y%m%dT%H%M, are an instant strictly
    before [time_max]. *)
Definition rule_until_before (time_max : datetime) (rec : string) : Prop :=
  PyStr.contains "RRULE" rec = true ∧
  ∃ g until,
    Re.search_until rec = Some g ∧
    Datetime.strptime (PyStr.take 13 g) Datetime.fmt_until = Some until ∧
    Datetime.lt until time_max = true.

(** The UNTIL value the pattern finds in an RRULE is a date-time that exists
    (RFC 5545 rule strings, section 3 of the specification). *)
Definition until_valid (rec : string) : Prop :=
  PyStr.contains "RRULE" rec = true →
  ∀ g, Re.search_until rec = Some g →
       is_Some (Datetime.strptime (PyStr.take 13 g) Datetime.fmt_until).

(** [g] has the form YYYYMMDDTHHMMSSZ: sixteen characters, eight decimal
    digits, the letter T, six decimal digits, the letter Z.  A decimal digit
    is any character Unicode classifies as one, as for the [\d] of the
    pattern. *)
Definition until_form (g : string) : bool :=
  match Utf8.chars g with
  | [y1; y2; y3; y4; m1; m2; d1; d2; t; h1; h2; n1; n2; s1; s2; z] =>
      forallb PyStr.is_digit [y1; y2; y3; y4; m1; m2; d1; d2] &&
      String.eqb t "T" &&
      forallb PyStr.is_digit [h1; h2; n1; n2; s1; s2] &&
      String.eqb z "Z"
  | _ => false
  end.

(** Nowhere in [rec] is [UNTIL=] followed by a value of the exact form. *)
Definition no_exact_until (rec : string) : Prop :=
  ∀ pre g post, rec = pre ++ "UNTIL=" ++ g ++ post → until_form g = false.

(** The same form with the digits 0 to 9 only, as YYYYMMDDTHHMMSSZ is
    usually read: [s] starts with sixteen such characters. *)
Definition plain_digit (c : ascii) : bool :=
  (48 <=? nat_of_ascii c) && (nat_of_ascii c <=? 57).

Definition plain_until_prefix (s : string) : bool :=
  match s with
  | String y1 (String y2 (String y3 (String y4 (String m1 (String m2
      (String d1 (String d2 (String t (String h1 (String h2 (String n1
      (String n2 (String s1 (String s2 (String z _))))))))))))))) =>
      forallb plain_digit [y1; y2; y3; y4; m1; m2; d1; d2] &&
      Ascii.eqb t "T" &&
      forallb plain_digit [h1; h2; n1; n2; s1; s2] &&
      Ascii.eqb z "Z"
  | _ => false
  end.

Definition plain_until_form (g : string) : bool :=
  plain_until_prefix g && (String.length g =? 16).

Definition no_plain_until (rec : string) : Prop :=
  ∀ pre g post, rec = pre ++ "UNTIL=" ++ g ++ post → plain_until_form g = false.

(** A test for [no_plain_until]: whether some [UNTIL=] in [s] is followed
    by a value of the plain form. *)
Fixpoint plain_until_scan (s : string) : bool :=
  match s with
  | EmptyString => false
  | String _ s' =>
      (PyStr.startswith "UNTIL=" s && plain_until_prefix (String.substring 6 16 s))
      || plain_until_scan s'
  end.

(** The end instant of an event, in the words of the specification: the first
    19 characters of [dateTime] read with %Y-%m-%dT%H:%M:%S, otherwise the
    all-day [date] read with %Y-%m-%d. *)
Definition end_instant (event : Event) : option datetime :=
  match dateTime (end_ event) with
  | Some s => Datetime.strptime (PyStr.take 19 s) Datetime.fmt_datetime
  | None =>
      match date (end_ event) with
      | Some s => Datetime.strptime s Datetime.fmt_date
      | None => None
      end
  end.

(** The start of the event can be printed on its status line. *)
Definition start_instant (event : Event) : option datetime :=
  match dateTime (start event) with
  | Some s => Datetime.strptime (PyStr.take 19 s) Datetime.fmt_datetime
  | None =>
      match date (start event) with
      | Some s => Datetime.strptime s Datetime.fmt_date
      | None => None
      end
  end.

(** What the [except] clauses of lines 147-157 make of an exception raised by
    the delete call: the value of [result] and what [print(error)] writes. *)
Definition error_result (e : exn) : string :=
  match e with
  | HttpError status _ => if status =? 410 then "ALREADY DELETED" else "FAILED "
  | _ => "FAILED "
  end.

Definition error_log (e : exn) : list string :=
  match e with
  | HttpError status msg => if status =? 410 then [] else [msg]
  | _ => [exn_str e]
  end.

(** The three values [result] can take on a status line. *)
Definition results : list string := ["DELETED"; "ALREADY DELETED"; "FAILED "].

(** Number of delete calls made for [event_id]. *)
Definition is_delete_of (event_id : string) (c : api_event) : bool :=
  match c with
  | ApiDelete _ i _ _ => if string_dec i event_id then true else false
  | _ => false
  end.

Definition delete_calls (event_id : string) (cs : list api_event) : nat :=
  length (List.filter (is_delete_of event_id) cs).

(** Number of delete calls for [event_id] that the service accepted. *)
Definition is_ok_delete_of (event_id : string) (c : api_event) : bool :=
  match c with
  | ApiDelete _ i _ (Ok _) => if string_dec i event_id then true else false
  | _ => false
  end.

Definition ok_deletes (event_id : string) (cs : list api_event) : nat :=
  length (List.filter (is_ok_delete_of event_id) cs).

(** No identifier was deleted at the service twice, and those deleted there
    are in the Deleted-Set. *)
Definition deleted_once (w : World) : Prop :=
  ∀ event_id,
    ok_deletes event_id (calls w) ≤ 1 ∧
    (1 ≤ ok_deletes event_id (calls w) → event_id ∈ deleted_events w).

(** Identifiers whose status line said DELETED (in simulation mode, the
    deletions recorded), in the order of the attempts. *)
Definition deleted_ids (atts : list (string * string)) : list string :=
  map fst (List.filter (λ a, String.eqb a.2 "DELETED") atts).

(** The list calls among the calls made, with their answers. *)
Fixpoint list_calls (cs : list api_event) : list (ListRequest * result Page) :=
  match cs with
  | [] => []
  | ApiList req resp :: cs' => (req, resp) :: list_calls cs'
  | _ :: cs' => list_calls cs'
  end.


(** The parameters of every listing request (lines 63-71). *)
Definition request_ok (self : EventDeletion) (req : ListRequest) : Prop :=
  calendarId req = "primary" ∧
  timeMin req = (Datetime.isoformat (time_min self) ++ "Z")%string ∧
  timeMax req = (Datetime.isoformat (time_max self) ++ "Z")%string ∧
  maxResults req = 100 ∧
  singleEvents req = true ∧
  orderBy req = "startTime".



Definition is_delete (c : api_event) : bool :=
  match c with
  | ApiDelete _ _ _ _ => true
  | _ => false
  end.

(** The calls other than deletions. *)
Definition without_deletes (cs : list api_event) : list api_event :=
  List.filter (λ c, negb (is_delete c)) cs.

Definition no_delete_calls (w : World) : Prop :=
  List.filter is_delete (calls w) = [].

(** The same sweep without and with [--confirm-delete]. *)
Definition simulated (svc : Service) (time_min time_max : datetime) : EventDeletion :=
  mk_EventDeletion time_min time_max false svc.

Definition confirmed (svc : Service) (time_min time_max : datetime) : EventDeletion :=
  mk_EventDeletion time_min time_max true svc.

(** Every deletion asked of the service succeeds. *)
Definition deletes_succeed (svc : Service) : Prop :=
  ∀ history event_id, svc_delete svc history event_id = Ok tt.

(** What the service lists and returns does not depend on the deletions made
    so far. *)
Definition ignores_deletes (svc : Service) : Prop :=
  (∀ history req, svc_list svc history req = svc_list svc (without_deletes history) req) ∧
  (∀ history event_id,
     svc_get svc history event_id = svc_get svc (without_deletes history) event_id).

(** [extends w w']: the calls, the output and the attempts of [w'] prolong
    those of [w], and the Deleted-Set has only grown. *)
Record extends (w w' : World) : Prop := mk_extends {
  ext_set : deleted_events w ⊆ deleted_events w';
  ext_calls : ∃ new, calls w' = (calls w ++ new)%list ∧ list_calls new = [];
  ext_stdout : ∃ new, stdout w' = (stdout w ++ new)%list;
  ext_attempts : ∃ new, attempts w' = (attempts w ++ new)%list
}.


(** The Deleted-Set holds exactly the identifiers whose status line said
    DELETED. *)
Definition counted (w : World) : Prop :=
  deleted_events w = list_to_set (deleted_ids (attempts w)).

(** [mirrors ws wc]: the world [ws] of a simulated sweep shows what the world
    [wc] of a confirmed sweep shows, deletions left out of the calls. *)
Definition mirrors (ws wc : World) : Prop :=
  deleted_events ws = deleted_events wc ∧
  stdout ws = stdout wc ∧
  attempts ws = attempts wc ∧
  calls ws = without_deletes (calls wc).

Definition mirrors_result (rs rc : result World) : Prop :=
  match rs, rc with
  | Ok ws, Ok wc => mirrors ws wc
  | Raise e, Raise e' => e = e'
  | _, _ => False
  end.

Definition mirrors_run (rs rc : run) : Prop :=
  match rs, rc with
  | Finished ws, Finished wc => mirrors ws wc
  | Aborted e, Aborted e' => e = e'
  | Running ws tok, Running wc tok' => tok = tok' ∧ mirrors ws wc
  | _, _ => False
  end.

(** ** Statements of the specification that the program does not meet *)

(** "Some rule string contains an RRULE with an UNTIL parameter of the form
    YYYYMMDDTHHMMSSZ whose first 13 characters, parsed as %Y%m%dT%H%M, are an
    instant strictly before time_max", of one rule string. *)
Definition some_until_before (time_max : datetime) (rec : string) : Prop :=
  PyStr.contains "RRULE" rec = true ∧
  ∃ pre g post until,
    rec = pre ++ "UNTIL=" ++ g ++ post ∧
    until_form g = true ∧
    Datetime.strptime (PyStr.take 13 g) Datetime.fmt_until = Some until ∧
    Datetime.lt until time_max = true.

(** "An event with a recurrence field is classified passed if and only if
    some rule string has such an UNTIL", for one event. *)
Definition passed_iff_some_until (self : EventDeletion) (event : Event) : Prop :=
  ∀ recs,
    recurrence event = Some recs →
    (_event_is_passed self event = Ok true
       ↔ Exists (some_until_before (time_max self)) recs).

(** "A series whose rules carry no UNTIL value of the exact form is never
    classified passed", the form read with the digits 0 to 9, for one
    event. *)
Definition inexact_until_not_passed (self : EventDeletion) (event : Event) : Prop :=
  ∀ recs,
    recurrence event = Some recs →
    Forall no_plain_until recs →
    _event_is_passed self event = Ok false.

(** "When the delete call raises, the deletion operation returns normally",
    for one call. *)
Definition delete_error_returns (self : EventDeletion) (w : World) (event : Event)
  : Prop :=
  confirm_delete self = true →
  id_ event ∉ deleted_events w →
  ∀ e, svc_delete (service self) (calls w) (id_ event) = Raise e →
       ∃ w', _delete_event self w event = Ok w'.

(** "Independently of the parent's outcome, the instance itself is deleted
    if it is classified passed", for one listed instance: the loop body
    returns, and the instance has had its attempt unless its identifier was
    recorded before. *)
Definition instance_deleted_anyway (self : EventDeletion) (w : World) (event : Event)
  : Prop :=
  ∀ rid,
    recurringEventId event = Some rid →
    _event_is_passed self event = Ok true →
    ∃ w', process_event self w event = Ok w' ∧
          (id_ event ∈ deleted_events w ∨ ∃ res, (id_ event, res) ∈ attempts w').

(** "A second call with the same identifier is a no-op, and the two calls
    make at most one delete call", at one input. *)
Definition second_call_noop (self : EventDeletion) (w : World) (event : Event) : Prop :=
  ∀ w1 w2,
    _delete_event self w event = Ok w1 →
    _delete_event self w1 event = Ok w2 →
    w2 = w1 ∧
    delete_calls (id_ event) (calls w2) ≤ 1 + delete_calls (id_ event) (calls w).

(** "An attempt that is not skipped adds the identifier to the Deleted-Set",
    at one input. *)
Definition attempt_records_id (self : EventDeletion) (w : World) (event : Event) : Prop :=
  id_ event ∉ deleted_events w →
  ∀ w', _delete_event self w event = Ok w' → id_ event ∈ deleted_events w'.
(** "A simulated sweep makes no delete call, and prints and records what the
    confirmed sweep does", for one service and window. *)
Definition simulation_same_as_confirmed (svc : Service) (time_min time_max : datetime)
  (fuel : nat) : Prop :=
  ∀ ws wc,
    delete_events fuel (simulated svc time_min time_max) init_world = Finished ws →
    delete_events fuel (confirmed svc time_min time_max) init_world = Finished wc →
    no_delete_calls ws ∧ stdout ws = stdout wc ∧
    deleted_events ws = deleted_events wc.

(** ** Sample data

    The events and services of the end-to-end scenario of the specification
    (section 8), used to run the definitions. *)

Module Sample.

Definition at_time (s : string) : EventTime := mk_EventTime (Some s) None.
Definition on_day (s : string) : EventTime := mk_EventTime None (Some s).

(** A plain event that ended on 10 March 2017. *)
Definition E1 : Event :=
  mk_Event "e1" None None
    (at_time "2017-03-10T09:00:00+01:00") (at_time "2017-03-10T10:00:00+01:00")
    (Some " Dentist ").

(** An instance of the series [R]. *)
Definition E2 : Event :=
  mk_Event "e2" (Some "R") None
    (at_time "2017-03-13T09:00:00+01:00") (at_time "2017-03-13T10:00:00+01:00")
    (Some "Standup").

Definition until_rule : string := "RRULE:FREQ=WEEKLY;UNTIL=20170317T083000Z".
Definition date_only_rule : string := "RRULE:FREQ=WEEKLY;UNTIL=20170317".
Definition open_rule : string := "RRULE:FREQ=WEEKLY;BYDAY=MO".

Definition series (rules : list string) : Event :=
  mk_Event "R" None (Some rules)
    (at_time "2017-01-02T09:00:00+01:00") (at_time "2017-01-02T10:00:00+01:00")
    (Some "Standup").

(** The series the instances of which stop on 17 March 2017. *)
Definition ER : Event := series [until_rule].

(** An all-day event. *)
Definition E3 : Event :=
  mk_Event "e3" None None (on_day "2017-03-11") (on_day "2017-03-12") None.

(** A page of the listing: no more items than the request allows. *)
Definition page_of (req : ListRequest) (events : list Event)
  (token : option string) : Page :=
  mk_Page (take (maxResults req) events) token.

(** A listing in two pages, the first one ending with the token [T]. *)
Definition two_pages (req : ListRequest) : result Page :=
  match pageToken req with
  | None => Ok (page_of req [E1] (Some "T"))
  | Some _ => Ok (page_of req [E2] None)
  end.

(** Every deletion succeeds. *)
Definition svc_ok : Service :=
  mk_Service (fun _ req => two_pages req) (fun _ _ => Ok ER) (fun _ _ => Ok tt).

Definition deleted_before (event_id : string) (history : list api_event) : bool :=
  existsb (fun c => match c with
                    | ApiDelete _ i _ (Ok _) => if string_dec i event_id then true else false
                    | _ => false
                    end) history.

(** Deleting a series removes its instances: once [R] is gone, deleting
    [e2] answers 410 (the situation the comment of lines 149-150
    describes). *)
Definition svc_gone : Service :=
  mk_Service (fun _ req => two_pages req) (fun _ _ => Ok ER)
    (fun history event_id =>
       if string_dec event_id "e2" then
         if deleted_before "R" history
         then Raise (HttpError 410 "Resource has been deleted")
         else Ok tt
       else Ok tt).

(** Every deletion is refused. *)
Definition svc_refusing : Service :=
  mk_Service (fun _ req => two_pages req) (fun _ _ => Ok ER)
    (fun _ _ => Raise (HttpError 500 "Backend Error")).

(** A listing that never ends. *)
Definition svc_endless : Service :=
  mk_Service (fun _ req => Ok (page_of req [E1] (Some "T")))
    (fun _ _ => Ok ER) (fun _ _ => Ok tt).

(** The series of the listed instance cannot be fetched. *)
Definition svc_orphan : Service :=
  mk_Service (fun _ req => two_pages req)
    (fun _ _ => Raise (HttpError 404 "Not Found")) (fun _ _ => Ok tt).

(** An UNTIL that the pattern matches and that names no date: 30 February. *)
Definition feb30_rule : string := "RRULE:FREQ=DAILY;UNTIL=20170230T083000Z".

(** The UNTIL of [until_rule] with its year in fullwidth digits
    (U+FF12 U+FF10 U+FF11 U+FF17). *)
Definition fullwidth_rule : string := "RRULE:FREQ=WEEKLY;UNTIL=２０１７0317T083000Z".

(** Two UNTIL parameters in one rule, the second one before March 2017. *)
Definition two_until_rule : string :=
  "RRULE:FREQ=WEEKLY;UNTIL=30000101T000000Z;UNTIL=20170317T083000Z".

(** The series [R] delivered without a readable start. *)
Definition ER5 : Event :=
  mk_Event "R" None (Some [until_rule]) (mk_EventTime None None)
    (at_time "2017-01-02T10:00:00+01:00") (Some "Standup").

Definition svc_no_start : Service :=
  mk_Service (fun _ req => two_pages req) (fun _ _ => Ok ER5) (fun _ _ => Ok tt).

(** An event the start of which has neither [dateTime] nor [date]. *)
Definition E5 : Event :=
  mk_Event "e5" None None (mk_EventTime None None)
    (at_time "2017-03-10T10:00:00+01:00") (Some "No start").

Definition y2000 : datetime := mk_datetime 2000 1 1 0 0 0 0.
Definition mar18 : datetime := mk_datetime 2017 3 18 0 0 0 0.
Definition mar01 : datetime := mk_datetime 2017 3 1 0 0 0 0.

Definition sweeper (svc : Service) (time_max : datetime) (confirm : bool)
  : EventDeletion :=
  mk_EventDeletion y2000 time_max confirm svc.

End Sample.

Module Run.

(** The world a call leaves, when it returns. *)
Definition after (r : result World) : World :=
  match r with
  | Ok w => w
  | Raise _ => init_world
  end.

(** The world a sweep leaves, when it ends or pauses. *)
Definition final (r : run) : World :=
  match r with
  | Finished w | Running w _ => w
  | Aborted _ => init_world
  end.

(** [R] has just been deleted. *)
Definition series_gone : World :=
  record_call (ApiDelete "primary" "R" "none" (Ok tt)) init_world.

End Run.

(** * The rest of the program *)

(** ** The command line (lines 165-211)

    [argparse] and the credential exchange of [__init__] are not part of the
    model: [main] starts from the parsed namespace and from the value
    [datetime.utcnow()] returns, and the object is built with a service that
    answers. *)

Record Namespace : Type := mk_Namespace {
  args_confirm_delete : bool;      (* --confirm-delete, default False *)
  args_delete_all : bool           (* --delete-all, default False *)
}.

Definition newline : string := String (ascii_of_nat 10) EmptyString.

(** [str(n)] for a natural number. *)
Definition str_nat (n : nat) : string := NilEmpty.string_of_uint (Nat.to_uint n).

(** [d.strftime('%Y-%m-%d')], for the years from 1000 on. *)
Definition strftime_ymd (d : datetime) : string :=
  PyStr.pad_dec 4 (year d) ++ "-" ++ PyStr.pad_dec 2 (month d) ++ "-" ++
  PyStr.pad_dec 2 (day d).

(** Lines 192-196. *)
Definition banner (time_min time_max : datetime) : string :=
  "This script will delete all events between " ++
  strftime_ymd time_min ++ " and " ++ strftime_ymd time_max ++ " " ++
  "in your main calendar" ++ newline.

(** Line 199. *)
Definition simulation_notice : string :=
  "*** Simulation mode - No event will be deleted ***" ++ newline.

(** Lines 206-211. *)
Definition summary_text (w : World) : string :=
  newline ++ str_nat (size (deleted_events w)) ++
  " events has been moved to the trash. " ++
  "Don't forget to empty it:" ++ newline ++
  "https://calendar.google.com/calendar/r/trash" ++ newline ++
  "Events in trash are automatically deleted after 30 days.".

(** Lines 186-190: the window. *)
Definition window (args : Namespace) (utcnow : datetime) : result (datetime * datetime) :=
  time_min ← strptime "2000-01-01" Datetime.fmt_date;
  time_max ← (if args_delete_all args then strptime "3000-01-01" Datetime.fmt_date
              else Ok utcnow);
  Ok (time_min, time_max).

(** Lines 184-211. *)
Definition main (args : Namespace) (utcnow : datetime) (svc : Service) (fuel : nat)
  : run :=
  match window args utcnow with
  | Raise e => Aborted e
  | Ok (time_min, time_max) =>
      let w0 := print (banner time_min time_max) init_world in
      let w1 := if args_confirm_delete args then w0 else print simulation_notice w0 in
      let ed := mk_EventDeletion time_min time_max (args_confirm_delete args) svc in
      match delete_events fuel ed w1 with
      | Finished w2 => Finished (print (summary_text w2) w2)
      | Aborted e => Aborted e
      | Running w2 page_token => Running w2 page_token
      end
  end.

(** ** More vocabulary *)

(** [d] with its seconds and fraction dropped, as the slice [[:13]] of line
    110 leaves it. *)
Definition to_minute (d : datetime) : datetime :=
  mk_datetime (year d) (month d) (day d) (hour d) (minute d) 0 0.

(** [d] with its fraction dropped, as the slice [[:19]] of line 123 leaves
    it. *)
Definition to_second (d : datetime) : datetime :=
  mk_datetime (year d) (month d) (day d) (hour d) (minute d) (second d) 0.

(** The date of [d] at midnight. *)
Definition to_day (d : datetime) : datetime :=
  mk_datetime (year d) (month d) (day d) 0 0 0 0.

(** The UTC date-time form of RFC 5545: YYYYMMDDTHHMMSSZ. *)
Definition until_text (d : datetime) : string :=
  PyStr.pad_dec 4 (year d) ++ PyStr.pad_dec 2 (month d) ++ PyStr.pad_dec 2 (day d) ++
  "T" ++ PyStr.pad_dec 2 (hour d) ++ PyStr.pad_dec 2 (minute d) ++
  PyStr.pad_dec 2 (second d) ++ "Z".

(** The all-day form YYYY-MM-DD. *)
Definition date_text (d : datetime) : string := strftime_ymd d.

(** The first alternative of a group that matches at the head of [s]. *)
Fixpoint first_match (alts : list (list Re.cclass)) (s : string)
  : option (string * string) :=
  match alts with
  | [] => None
  | a :: more =>
      match Re.match_seq a s with
      | Some r => Some r
      | None => first_match more s
      end
  end.

(** The events the service has returned so far, in listings and in
    fetches. *)
Fixpoint known_events (cs : list api_event) : list Event :=
  match cs with
  | [] => []
  | ApiList _ (Ok page) :: cs' => (items page ++ known_events cs')%list
  | ApiGet _ _ (Ok event) :: cs' => event :: known_events cs'
  | _ :: cs' => known_events cs'
  end.

(** An identifier the program may act on: that of an event the service
    returned and that [_event_is_passed] classifies passed. *)
Definition justified (self : EventDeletion) (cs : list api_event) (event_id : string)
  : Prop :=
  ∃ event, event ∈ known_events cs ∧ id_ event = event_id ∧
           _event_is_passed self event = Ok true.

(** The parameters of a call as the program makes it. *)
Definition call_ok (self : EventDeletion) (c : api_event) : Prop :=
  match c with
  | ApiList req _ => request_ok self req
  | ApiGet calendar _ _ => calendar = "primary"
  | ApiDelete calendar _ sendUpdates _ => calendar = "primary" ∧ sendUpdates = "none"
  end.

(** Number of delete calls the service accepted. *)
Definition is_accepted_delete (c : api_event) : bool :=
  match c with
  | ApiDelete _ _ _ (Ok _) => true
  | _ => false
  end.

Definition accepted_deletes (cs : list api_event) : nat :=
  length (List.filter is_accepted_delete cs).

(** The attempts whose status line said DELETED. *)
Definition deleted_attempts (atts : list (string * string)) : list (string * string) :=
  List.filter (λ a, String.eqb a.2 "DELETED") atts.

(** What a sweep may be found to satisfy when it has ended or is pausing. *)
Definition at_rest (r : run) (P : World → Prop) : Prop :=
  match r with
  | Finished w | Running w _ => P w
  | Aborted _ => True
  end.

(** The books of a sweep that started with [n0] lines already printed: the
    Deleted-Set against the DELETED attempts, the pauses against the delete
    calls, and what the mode adds. *)
Record ledger (self : EventDeletion) (n0 : nat) (w : World) : Prop := mk_ledger {
  led_counted : counted w;
  led_nodup : NoDup (deleted_ids (attempts w));
  led_sleeps : sleeps w = length (List.filter is_delete (calls w));
  led_confirmed :
    confirm_delete self = true →
    length (deleted_ids (attempts w)) = accepted_deletes (calls w);
  led_simulated :
    confirm_delete self = false →
    Forall (λ a, a.2 = "DELETED") (attempts w) ∧
    length (stdout w) = n0 + length (attempts w) ∧
    List.filter is_delete (calls w) = []
}.

(** ** More sample data *)

Module Broken.

(** An event the end of which has neither [dateTime] nor [date]. *)
Definition endless : Event :=
  mk_Event "e9" None None (Sample.at_time "2017-03-10T09:00:00+01:00")
    (mk_EventTime None None) None.

(** One page: [E1], the event without an end, [E3]. *)
Definition svc : Service :=
  mk_Service (fun _ req => Ok (Sample.page_of req [Sample.E1; endless; Sample.E3] None))
    (fun _ _ => Ok Sample.ER) (fun _ _ => Ok tt).

End Broken.

(** The fetches among the calls, and the events the listings returned. *)
Definition is_get (c : api_event) : bool :=
  match c with
  | ApiGet _ _ _ => true
  | _ => false
  end.

Definition get_calls (cs : list api_event) : nat := length (List.filter is_get cs).

Fixpoint listed (cs : list api_event) : list Event :=
  match cs with
  | [] => []
  | ApiList _ (Ok page) :: cs' => (items page ++ listed cs')%list
  | _ :: cs' => listed cs'
  end.

(** * Properties *)

(** ** The library models on sample inputs

    Values and failures below are those of CPython 3 for the same calls. *)

Example strptime_until :
  Datetime.strptime "20170317T0830" Datetime.fmt_until
  = Some (mk_datetime 2017 3 17 8 30 0 0).
Proof. reflexivity. Qed.

Example strptime_until_bad :
  map (λ s, Datetime.strptime s Datetime.fmt_until)
    ["20171317T0830"; "20170230T0830"; "20170317T0860"; "20170317T2430";
     "00000317T0830"; "20170229T0000"]
  = [None; None; None; None; None; None].
Proof. reflexivity. Qed.

Example strptime_until_lenient :
  map (λ s, Datetime.strptime s Datetime.fmt_until)
    ["20170317t0830"; "20160229T0000"; "2017031T0830"]
  = [Some (mk_datetime 2017 3 17 8 30 0 0); Some (mk_datetime 2016 2 29 0 0 0 0);
     Some (mk_datetime 2017 3 1 8 30 0 0)].
Proof. reflexivity. Qed.

Example strptime_datetime :
  map (λ s, Datetime.strptime s Datetime.fmt_datetime)
    ["2017-03-17T08:30:00"; "2017-3-7t8:3:0"; "2017-03-17T08:30:60";
     "2017-03-17T08:30:5"; "2017-03- 7T08:30:00"; "2017-03-17T08:30"]
  = [Some (mk_datetime 2017 3 17 8 30 0 0); Some (mk_datetime 2017 3 7 8 3 0 0);
     None; Some (mk_datetime 2017 3 17 8 30 5 0);
     Some (mk_datetime 2017 3 7 8 30 0 0); None].
Proof. reflexivity. Qed.

Example strptime_date :
  map (λ s, Datetime.strptime s Datetime.fmt_date)
    ["2017-03-17"; "2017-03- 7"; "2017-03-17 "; "2017-13-01"; "2017-3-1";
     "2017-03-171"]
  = [Some (mk_datetime 2017 3 17 0 0 0 0); Some (mk_datetime 2017 3 7 0 0 0 0);
     None; None; Some (mk_datetime 2017 3 1 0 0 0 0); None].
Proof. reflexivity. Qed.

(** The slice of line 123 drops the UTC offset of an RFC 3339 date-time. *)
Example get_datetime_offset :
  _get_datetime Sample.E1 key_end = Ok (mk_datetime 2017 3 10 10 0 0 0).
Proof. reflexivity. Qed.

Example search_until_leftmost :
  map Re.search_until
    ["RRULE:FREQ=WEEKLY;UNTIL=20170317T083000Z;BYDAY=MO";
     "RRULE:FREQ=WEEKLY;UNTIL=20170317";
     "UNTIL=30000101T000000Z;UNTIL=20170317T083000Z";
     "RRULE:FREQ=WEEKLY;until=20170317T083000Z"]
  = [Some "20170317T083000Z"; None; Some "30000101T000000Z"; None].
Proof. reflexivity. Qed.

Example strip_blanks :
  PyStr.strip "  Dentist (room 2)  " = "Dentist (room 2)" ∧
  PyStr.strip (String (ascii_of_nat 9) "x") = "x".
Proof. split; reflexivity. Qed.

(** Code points, not bytes: the digits of [\d], of [strptime] and of [int]
    are those of every script, a slice counts characters, and [strip] removes
    the no-break space U+00A0, the next line U+0085 and the ideographic space
    U+3000 as it removes blanks. *)
Example search_until_fullwidth :
  Re.search_until Sample.fullwidth_rule = Some "２０１７0317T083000Z" ∧
  PyStr.take 13 "２０１７0317T083000Z" = "２０１７0317T0830" ∧
  Datetime.strptime "２０１７0317T0830" Datetime.fmt_until
  = Some (mk_datetime 2017 3 17 8 30 0 0).
Proof. repeat split; vm_compute; reflexivity. Qed.

Example strptime_digits_of_other_scripts :
  map (λ s, Datetime.strptime s Datetime.fmt_date)
    ["٢٠١٧-03-17"; "2017-03-1７"; "2017-０3-17"; "2017-03-0７"]
  = [Some (mk_datetime 2017 3 17 0 0 0 0); Some (mk_datetime 2017 3 17 0 0 0 0);
     None; None].
Proof. vm_compute; reflexivity. Qed.

Example strip_unicode_blanks :
  PyStr.strip (String (ascii_of_nat 194) (String (ascii_of_nat 160)
                 ("Dentist" ++ String (ascii_of_nat 194) (String (ascii_of_nat 133)
                    "　"))))
  = "Dentist".
Proof. vm_compute; reflexivity. Qed.

Example datetime_str :
  Datetime.str (mk_datetime 2017 3 17 8 30 0 0) = "2017-03-17 08:30:00" ∧
  Datetime.isoformat (mk_datetime 2017 3 17 8 30 0 1200) = "2017-03-17T08:30:00.001200".
Proof. split; reflexivity. Qed.

(** ** Strings and the UNTIL pattern *)

Lemma app_String c a b : String c a ++ b = String c (a ++ b).
Proof. reflexivity. Qed.

Lemma app_empty_r a : a ++ EmptyString = a.
Proof. induction a as [|c a IH]; [reflexivity|]. rewrite app_String, IH. reflexivity. Qed.

Lemma app_string_assoc a b c : (a ++ b) ++ c = a ++ (b ++ c).
Proof. induction a as [|x a IH]; [reflexivity|]. rewrite !app_String, IH. reflexivity. Qed.

Lemma app_string_inv_head a b c : a ++ b = a ++ c → b = c.
Proof. induction a as [|x a IH]; [auto|]. rewrite !app_String. intros [= H]. auto. Qed.

Lemma app_string_length a b : String.length (a ++ b) = String.length a + String.length b.
Proof. induction a as [|x a IH]; [reflexivity|]. rewrite app_String. simpl. rewrite IH. reflexivity. Qed.

(** *** Code points *)

(** What [next] found is a prefix of the string, at least one byte long. *)
Lemma next_split s c r :
  Utf8.next s = Some (c, r) → s = c ++ r ∧ c ≠ EmptyString.
Proof.
  destruct s as [|a s1]; [discriminate|]. unfold Utf8.next.
  destruct (Utf8.tail_length a) as [|[|[|[|n]]]].
  - intros [= <- <-]. split; [reflexivity|discriminate].
  - destruct s1 as [|b s2]; [intros [= <- <-]; split; [reflexivity|discriminate]|].
    destruct (Utf8.is_cont b); intros [= <- <-]; split; (reflexivity || discriminate).
  - destruct s1 as [|b [|c' s3]];
      try (intros [= <- <-]; split; [reflexivity|discriminate]).
    destruct (Utf8.is_cont b && Utf8.is_cont c'); intros [= <- <-];
      split; (reflexivity || discriminate).
  - destruct s1 as [|b [|c' [|d s4]]];
      try (intros [= <- <-]; split; [reflexivity|discriminate]).
    destruct (Utf8.is_cont b && Utf8.is_cont c' && Utf8.is_cont d); intros [= <- <-];
      split; (reflexivity || discriminate).
  - intros [= <- <-]. split; [reflexivity|discriminate].
Qed.

Lemma next_shorter s c r :
  Utf8.next s = Some (c, r) → String.length r < String.length s.
Proof.
  intros [-> Hc]%next_split. rewrite app_string_length.
  destruct c; [congruence|simpl; lia].
Qed.

Lemma next_none s : Utf8.next s = None → s = EmptyString.
Proof. destruct s; [reflexivity|discriminate]. Qed.

(** The bytes of a code point are read back as that code point, whatever
    follows. *)
Lemma next_code c n s :
  Utf8.code c = Some n → Utf8.next (c ++ s) = Some (c, s).
Proof.
  destruct c as [|a [|b [|c' [|d [|e c]]]]]; try discriminate; unfold Utf8.code.
  - destruct (N_of_ascii a <? 128)%N eqn:Ha; [|discriminate]. intros _.
    rewrite app_String. unfold Utf8.next.
    assert (Utf8.tail_length a = 0) as ->; [|reflexivity].
    unfold Utf8.tail_length.
    assert (nat_of_ascii a < 128) as H.
    { apply N.ltb_lt in Ha. unfold nat_of_ascii. lia. }
    destruct (Nat.ltb_spec (nat_of_ascii a) 192); [reflexivity|lia].
  - destruct (Utf8.tail_length a) as [|[|n']] eqn:Ht; try discriminate.
    destruct (Utf8.is_cont b) eqn:Hb; [|discriminate]. intros _.
    rewrite !app_String. unfold Utf8.next. rewrite Ht, Hb. reflexivity.
  - destruct (Utf8.tail_length a) as [|[|[|n']]] eqn:Ht; try discriminate.
    destruct (Utf8.is_cont b) eqn:Hb; [|discriminate].
    destruct (Utf8.is_cont c') eqn:Hc; [|discriminate]. intros _.
    rewrite !app_String. unfold Utf8.next. rewrite Ht, Hb, Hc. reflexivity.
  - destruct (Utf8.tail_length a) as [|[|[|[|n']]]] eqn:Ht; try discriminate.
    destruct (Utf8.is_cont b) eqn:Hb; [|discriminate].
    destruct (Utf8.is_cont c') eqn:Hc; [|discriminate].
    destruct (Utf8.is_cont d) eqn:Hd; [|discriminate]. intros _.
    rewrite !app_String. unfold Utf8.next. rewrite Ht, Hb, Hc, Hd. reflexivity.
Qed.

(** An ASCII byte is a code point of its own. *)
Lemma next_ascii a s :
  nat_of_ascii a < 128 → Utf8.next (String a s) = Some (String a EmptyString, s).
Proof.
  intros H. apply (next_code (String a EmptyString) (N_of_ascii a)).
  unfold Utf8.code.
  destruct (N.ltb_spec (N_of_ascii a) 128); [reflexivity|].
  unfold nat_of_ascii in H. lia.
Qed.

Lemma chars_upto_enough n s :
  String.length s ≤ n → Utf8.chars_upto n s = Utf8.chars s.
Proof.
  unfold Utf8.chars.
  assert (∀ n m s, String.length s ≤ n → String.length s ≤ m →
                   Utf8.chars_upto n s = Utf8.chars_upto m s) as H.
  { clear. induction n as [|n IH]; intros m s Hn Hm.
    - destruct s; [|simpl in Hn; lia]. destruct m; reflexivity.
    - destruct m as [|m].
      + destruct s; [reflexivity|simpl in Hm; lia].
      + simpl. destruct (Utf8.next s) as [[c r]|] eqn:E; [|reflexivity].
        apply next_shorter in E. f_equal. apply IH; lia. }
  intros Hn. apply H; [exact Hn|lia].
Qed.

Lemma chars_next s c r :
  Utf8.next s = Some (c, r) → Utf8.chars s = c :: Utf8.chars r.
Proof.
  intros E. unfold Utf8.chars at 1.
  destruct (String.length s) as [|n] eqn:Hn.
  - apply next_shorter in E. lia.
  - simpl. rewrite E. f_equal. apply chars_upto_enough.
    apply next_shorter in E. lia.
Qed.

Lemma chars_nil s : Utf8.chars s = [] → s = EmptyString.
Proof.
  destruct (Utf8.next s) as [[c r]|] eqn:E; [|intros _; exact (next_none _ E)].
  rewrite (chars_next _ _ _ E). discriminate.
Qed.

Lemma chars_cons s c cs :
  Utf8.chars s = c :: cs → ∃ r, Utf8.next s = Some (c, r) ∧ Utf8.chars r = cs.
Proof.
  destruct (Utf8.next s) as [[c' r]|] eqn:E.
  - rewrite (chars_next _ _ _ E). intros [= -> <-]. eauto.
  - apply next_none in E as ->. discriminate.
Qed.

(** The code points of a string, put together again, are the string. *)
Lemma join_chars s : Utf8.join (Utf8.chars s) = s.
Proof.
  remember (String.length s) as n eqn:Hn.
  revert s Hn. induction n as [n IH] using lt_wf_ind. intros s ->.
  destruct (Utf8.next s) as [[c r]|] eqn:E.
  - rewrite (chars_next _ _ _ E). simpl.
    rewrite (IH _ (next_shorter _ _ _ E) r eq_refl).
    symmetry. apply (next_split _ _ _ E).
  - apply next_none in E as ->. reflexivity.
Qed.

(** A class only accepts the bytes of a code point. *)
Lemma accepts_code k c : Re.accepts k c = true → ∃ n, Utf8.code c = Some n.
Proof.
  assert (∀ b, (nat_of_ascii b <? 128) = true →
               ∃ n, Utf8.code (String b EmptyString) = Some n) as Hascii.
  { intros b Hb. exists (N_of_ascii b). unfold Utf8.code.
    apply Nat.ltb_lt in Hb. unfold nat_of_ascii in Hb.
    destruct (N.ltb_spec (N_of_ascii b) 128); [reflexivity|lia]. }
  destruct k as [|lo hi|a|a]; simpl.
  - unfold PyStr.is_digit, PyStr.decimal.
    destruct (Utf8.code c) as [n|]; [eauto|discriminate].
  - destruct c as [|b [|]]; try discriminate.
    intros [[Hb _]%andb_prop _]%andb_prop. auto.
  - destruct c as [|b [|]]; try discriminate.
    intros [Hb _]%andb_prop. auto.
  - destruct c as [|b [|]]; try discriminate.
    intros [Hb _]%andb_prop. auto.
Qed.

Lemma accepts_next k c s :
  Re.accepts k c = true → Utf8.next (c ++ s) = Some (c, s).
Proof. intros [n Hn]%accepts_code. exact (next_code _ _ _ Hn). Qed.

Lemma accepts_lit a c : Re.accepts (Re.Lit a) c = true → c = String a EmptyString.
Proof.
  simpl. destruct c as [|b [|]]; try discriminate.
  intros [_ H]%andb_prop. destruct (ascii_dec a b) as [->|]; [reflexivity|discriminate].
Qed.

(** *** The matcher *)

Lemma match_seq_cons k ks s :
  Re.match_seq (k :: ks) s =
  match Utf8.next s with
  | Some (c, s') =>
      if Re.accepts k c then
        match Re.match_seq ks s' with
        | Some (m, r) => Some (c ++ m, r)
        | None => None
        end
      else None
  | None => None
  end.
Proof. reflexivity. Qed.

Lemma match_seq_split ks s m r :
  Re.match_seq ks s = Some (m, r) → s = m ++ r.
Proof.
  revert s m r. induction ks as [|k ks IH]; intros s m r.
  - intros [= <- <-]. reflexivity.
  - rewrite match_seq_cons.
    destruct (Utf8.next s) as [[c s']|] eqn:En; [|discriminate].
    destruct (Re.accepts k c); [|discriminate].
    destruct (Re.match_seq ks s') as [[m' r']|] eqn:E; [|discriminate].
    intros [= <- <-]. rewrite app_string_assoc, <- (IH _ _ _ E).
    apply (next_split _ _ _ En).
Qed.

Lemma match_seq_exact ks s m r :
  Re.match_seq ks s = Some (m, r) → Re.match_seq ks m = Some (m, EmptyString).
Proof.
  revert s m r. induction ks as [|k ks IH]; intros s m r.
  - intros [= <- <-]. reflexivity.
  - rewrite !match_seq_cons.
    destruct (Utf8.next s) as [[c s']|] eqn:En; [|discriminate].
    destruct (Re.accepts k c) eqn:Hk; [|discriminate].
    destruct (Re.match_seq ks s') as [[m' r']|] eqn:E; [|discriminate].
    intros [= <- <-]. rewrite (accepts_next _ _ m' Hk), Hk, (IH _ _ _ E). reflexivity.
Qed.

Lemma match_seq_extend ks m post :
  Re.match_seq ks m = Some (m, EmptyString) →
  Re.match_seq ks (m ++ post) = Some (m, post).
Proof.
  revert m. induction ks as [|k ks IH]; intros m.
  - intros [= <-]. reflexivity.
  - rewrite !match_seq_cons.
    destruct (Utf8.next m) as [[c m1]|] eqn:En; [|discriminate].
    destruct (Re.accepts k c) eqn:Hk; [|discriminate].
    destruct (Re.match_seq ks m1) as [[m' r']|] eqn:E; [|discriminate].
    intros [= Hm ->].
    apply next_split in En as [Hsplit _].
    assert (m1 = m') as -> by (apply (app_string_inv_head c); congruence).
    rewrite Hsplit, app_string_assoc, (accepts_next _ _ _ Hk), Hk.
    rewrite (IH _ E). reflexivity.
Qed.

Lemma match_seq_lits p s m r :
  Re.match_seq (Re.lits p) s = Some (m, r) → m = p.
Proof.
  revert s m r. induction p as [|a p IH]; intros s m r.
  - intros [= <- _]. reflexivity.
  - change (Re.lits (String a p)) with (Re.Lit a :: Re.lits p).
    rewrite match_seq_cons.
    destruct (Utf8.next s) as [[c s']|]; [|discriminate].
    destruct (Re.accepts (Re.Lit a) c) eqn:Hk; [|discriminate].
    destruct (Re.match_seq (Re.lits p) s') as [[m' r']|] eqn:E; [|discriminate].
    intros [= <- <-]. rewrite (accepts_lit _ _ Hk), (IH _ _ _ E). reflexivity.
Qed.

(** A string all of whose code points are accepted, class by class, is
    matched whole; and the other way round. *)
Lemma match_seq_chars ks s :
  Re.match_seq ks s = Some (s, EmptyString) ↔
  Forall2 (λ k c, Re.accepts k c = true) ks (Utf8.chars s).
Proof.
  split.
  - revert s. induction ks as [|k ks IH]; intros s.
    + intros [= <- _]. constructor.
    + rewrite match_seq_cons.
      destruct (Utf8.next s) as [[c s']|] eqn:En; [|discriminate].
      destruct (Re.accepts k c) eqn:Hk; [|discriminate].
      destruct (Re.match_seq ks s') as [[m' r']|] eqn:E; [|discriminate].
      intros [= Hm ->]. rewrite (chars_next _ _ _ En).
      constructor; [exact Hk|]. apply IH.
      apply next_split in En as [Hsplit _].
      assert (s' = m') as -> by (apply (app_string_inv_head c); congruence).
      exact E.
  - revert s. induction ks as [|k ks IH]; intros s H.
    + destruct (Utf8.chars s) as [|c cs] eqn:Hcs; [|inversion H].
      apply chars_nil in Hcs as ->. reflexivity.
    + destruct (Utf8.chars s) as [|c cs] eqn:Hcs; [inversion H|].
      apply Forall2_cons in H as [Hk Hrest].
      apply chars_cons in Hcs as (r & En & <-).
      rewrite match_seq_cons, En, Hk, (IH _ Hrest).
      apply next_split in En as [<- _]. reflexivity.
Qed.

Lemma until_form_iff g :
  until_form g = true ↔ Re.match_seq Re.until_group g = Some (g, EmptyString).
Proof.
  rewrite match_seq_chars. unfold until_form.
  assert (∀ c, String.eqb c "T" = true ↔ Re.accepts (Re.Lit "T") c = true) as HT.
  { intros c. split.
    - intros ->%String.eqb_eq. reflexivity.
    - intros ->%accepts_lit. reflexivity. }
  assert (∀ c, String.eqb c "Z" = true ↔ Re.accepts (Re.Lit "Z") c = true) as HZ.
  { intros c. split.
    - intros ->%String.eqb_eq. reflexivity.
    - intros ->%accepts_lit. reflexivity. }
  destruct (Utf8.chars g)
    as [|y1 [|y2 [|y3 [|y4 [|m1 [|m2 [|d1 [|d2 [|t [|h1 [|h2 [|n1 [|n2 [|s1 [|s2
        [|z [|more cs]]]]]]]]]]]]]]]]];
    try (split; [discriminate|];
         intros H; repeat (inversion H as [|? ? ? ? _ H']; clear H; rename H' into H);
         inversion H).
  split.
  - cbn [forallb]. rewrite !andb_true_iff.
    intros ((((Hy1 & Hy2 & Hy3 & Hy4 & Hm1 & Hm2 & Hd1 & Hd2 & _) & Ht)
             & (Hh1 & Hh2 & Hn1 & Hn2 & Hs1 & Hs2 & _)) & Hz).
    apply HT in Ht. apply HZ in Hz.
    repeat (constructor; [assumption|]). constructor.
  - intros H.
    repeat match goal with
           | H : Forall2 _ (_ :: _) (_ :: _) |- _ =>
               apply Forall2_cons in H as [? H]
           | H : Forall2 _ (Re.rep _ _ ++ _) _ |- _ => cbn in H
           | H : Forall2 _ Re.until_group _ |- _ => cbv [Re.until_group Re.rep repeat app] in H
           end.
    cbn [forallb]. rewrite !andb_true_iff.
    repeat split; try assumption; try (apply HT; assumption); try (apply HZ; assumption).
Qed.

Lemma match_until_sound s g :
  Re.match_until s = Some g →
  ∃ post, s = "UNTIL=" ++ g ++ post ∧ until_form g = true.
Proof.
  unfold Re.match_until.
  destruct (Re.match_seq (Re.lits "UNTIL=") s) as [[m r]|] eqn:E1; [|discriminate].
  destruct (Re.match_seq Re.until_group r) as [[g' post]|] eqn:E2; [|discriminate].
  intros [= ->]. exists post. split.
  - apply match_seq_split in E1 as Hs. apply match_seq_split in E2 as Hr.
    subst s r.
    apply match_seq_lits in E1 as ->. reflexivity.
  - apply until_form_iff. eapply match_seq_exact; eauto.
Qed.

Lemma match_until_complete g post :
  until_form g = true → Re.match_until ("UNTIL=" ++ g ++ post) = Some g.
Proof.
  intros Hg%until_form_iff. unfold Re.match_until.
  change (Re.match_seq (Re.lits "UNTIL=") ("UNTIL=" ++ g ++ post))
    with (Some ("UNTIL=", g ++ post)).
  cbv beta iota. rewrite (match_seq_extend _ _ post Hg). reflexivity.
Qed.

Lemma search_until_eq s :
  Re.search_until s =
  match Re.match_until s with
  | Some g => Some g
  | None => match s with String _ s' => Re.search_until s' | EmptyString => None end
  end.
Proof. destruct s; reflexivity. Qed.

(** [re.search] finds a value of the exact form after some [UNTIL=]. *)
Lemma search_until_sound s g :
  Re.search_until s = Some g →
  ∃ pre post, s = pre ++ "UNTIL=" ++ g ++ post ∧ until_form g = true.
Proof.
  induction s as [|c s IH]; rewrite search_until_eq.
  - discriminate.
  - destruct (Re.match_until (String c s)) eqn:E.
    + intros [= ->]. apply match_until_sound in E as [post [? ?]].
      exists EmptyString, post. auto.
    + intros [pre [post [-> ?]]]%IH. exists (String c pre), post. auto.
Qed.

(** [re.search] finds nothing exactly when no [UNTIL=] is followed by a value
    of the exact form. *)
Lemma search_until_none s :
  Re.search_until s = None ↔ no_exact_until s.
Proof.
  split.
  - intros Hs pre. revert s Hs. induction pre as [|c pre IH]; intros s Hs g post ->.
    + destruct (until_form g) eqn:Hg; [|reflexivity].
      change (EmptyString ++ "UNTIL=" ++ g ++ post) with ("UNTIL=" ++ g ++ post) in Hs.
      rewrite search_until_eq, (match_until_complete g post Hg) in Hs.
      discriminate.
    + rewrite app_String, search_until_eq in Hs.
      destruct (Re.match_until _); [discriminate|].
      eapply IH; eauto.
  - intros Hs. destruct (Re.search_until s) as [g|] eqn:E; [|reflexivity].
    apply search_until_sound in E as [pre [post [-> Hg]]].
    rewrite (Hs _ _ _ eq_refl) in Hg. discriminate.
Qed.

(** ** Order on naive datetimes *)

Lemma lex_lt_irrefl a : Datetime.lex_lt a a = false.
Proof.
  induction a as [|x a IH]; [reflexivity|]. simpl.
  rewrite IH, Nat.ltb_irrefl, andb_false_r. reflexivity.
Qed.

Lemma lex_lt_trans a b c :
  length a = length b → length b = length c →
  Datetime.lex_lt a b = true → Datetime.lex_lt b c = true →
  Datetime.lex_lt a c = true.
Proof.
  revert b c. induction a as [|x a IH]; intros [|y b] [|z c]; simpl;
    try discriminate; try reflexivity.
  intros [= Hab] [= Hbc].
  rewrite !orb_true_iff, !andb_true_iff, !Nat.ltb_lt, !Nat.eqb_eq.
  intros [?|[? ?]] [?|[? ?]]; try (left; lia).
  right. split; [lia|]. eauto.
Qed.

Lemma lex_lt_total a b :
  length a = length b →
  Datetime.lex_lt a b = true ∨ a = b ∨ Datetime.lex_lt b a = true.
Proof.
  revert b. induction a as [|x a IH]; intros [|y b]; simpl; try discriminate; auto.
  intros [= Hab].
  rewrite !orb_true_iff, !andb_true_iff, !Nat.ltb_lt, !Nat.eqb_eq.
  destruct (lt_eq_lt_dec x y) as [[?| ->]|?]; auto.
  destruct (IH b Hab) as [?|[ -> |?]]; auto.
Qed.

Lemma key_inj a b : Datetime.key a = Datetime.key b → a = b.
Proof. destruct a, b. unfold Datetime.key. simpl. congruence. Qed.

Lemma datetime_lt_irrefl a : Datetime.lt a a = false.
Proof. apply lex_lt_irrefl. Qed.

Lemma datetime_lt_trans a b c :
  Datetime.lt a b = true → Datetime.lt b c = true → Datetime.lt a c = true.
Proof. apply lex_lt_trans; reflexivity. Qed.

(** [not (a < b)] is [b <= a]. *)
Lemma datetime_lt_false a b :
  Datetime.lt a b = false ↔ a = b ∨ Datetime.lt b a = true.
Proof.
  split.
  - intros Hab. destruct (lex_lt_total (Datetime.key a) (Datetime.key b) eq_refl)
      as [H|[H|H]]; [unfold Datetime.lt in Hab; congruence| |auto].
    left. apply key_inj, H.
  - intros [ -> |Hba]; [apply datetime_lt_irrefl|].
    destruct (Datetime.lt a b) eqn:Hab; [|reflexivity].
    pose proof (datetime_lt_trans _ _ _ Hab Hba) as H.
    rewrite datetime_lt_irrefl in H. discriminate.
Qed.

(** ** Classification of a recurring series *)

Lemma scan_recurrence_cons time_max rec recs :
  scan_recurrence time_max (rec :: recs) =
  if PyStr.contains "RRULE" rec then
    match Re.search_until rec with
    | Some g =>
        match Datetime.strptime (PyStr.take 13 g) Datetime.fmt_until with
        | Some until =>
            if Datetime.lt until time_max then Ok true
            else scan_recurrence time_max recs
        | None => Raise (ValueError "time data does not match format")
        end
    | None => scan_recurrence time_max recs
    end
  else scan_recurrence time_max recs.
Proof.
  simpl. destruct (PyStr.contains "RRULE" rec); [|reflexivity].
  destruct (Re.search_until rec) as [g|]; [|reflexivity].
  unfold strptime. destruct (Datetime.strptime _ _); reflexivity.
Qed.

Lemma scan_recurrence_true time_max recs :
  scan_recurrence time_max recs = Ok true →
  Exists (rule_until_before time_max) recs.
Proof.
  induction recs as [|rec recs IH]; [discriminate|].
  rewrite scan_recurrence_cons.
  destruct (PyStr.contains "RRULE" rec) eqn:Hc; [|auto].
  destruct (Re.search_until rec) as [g|] eqn:Hg; [|auto].
  destruct (Datetime.strptime (PyStr.take 13 g) Datetime.fmt_until) as [until|] eqn:Hp;
    [|discriminate].
  destruct (Datetime.lt until time_max) eqn:Hlt; [|auto].
  intros _. left. split; [assumption|]. eauto 6.
Qed.

Lemma scan_recurrence_false time_max recs :
  scan_recurrence time_max recs = Ok false →
  ¬ Exists (rule_until_before time_max) recs.
Proof.
  induction recs as [|rec recs IH].
  - intros _ H. inversion H.
  - rewrite scan_recurrence_cons, Exists_cons. unfold rule_until_before at 1.
    destruct (PyStr.contains "RRULE" rec) eqn:Hc;
      [|intros H [[? _]|?]; [discriminate|exact (IH H ltac:(assumption))]].
    destruct (Re.search_until rec) as [g|] eqn:Hg;
      [|intros H [(_ & ? & ? & ? & _)|?]; [discriminate|exact (IH H ltac:(assumption))]].
    destruct (Datetime.strptime (PyStr.take 13 g) Datetime.fmt_until) as [until|] eqn:Hp;
      [|discriminate].
    destruct (Datetime.lt until time_max) eqn:Hlt; [discriminate|].
    intros H [(_ & g' & u' & [= <-] & Hu & Hlt')|?];
      [congruence|exact (IH H ltac:(assumption))].
Qed.

Lemma scan_recurrence_returns time_max recs :
  Forall until_valid recs → ∃ b, scan_recurrence time_max recs = Ok b.
Proof.
  induction 1 as [|rec recs Hv _ IH]; [simpl; eauto|].
  rewrite scan_recurrence_cons.
  destruct (PyStr.contains "RRULE" rec) eqn:Hc; [|assumption].
  destruct (Re.search_until rec) as [g|] eqn:Hg; [|assumption].
  destruct (Hv Hc g Hg) as [until Hp].
  rewrite Hp.
  destruct (Datetime.lt until time_max); eauto.
Qed.

(** A rule in which the pattern finds nothing is passed over. *)
Lemma scan_recurrence_skip time_max rec recs :
  Re.search_until rec = None →
  scan_recurrence time_max (rec :: recs) = scan_recurrence time_max recs.
Proof.
  intros H. rewrite scan_recurrence_cons, H.
  destruct (PyStr.contains _ _); reflexivity.
Qed.

Lemma scan_recurrence_no_until time_max recs :
  Forall (λ rec, Re.search_until rec = None) recs →
  scan_recurrence time_max recs = Ok false.
Proof.
  induction 1 as [|rec recs H _ IH]; [reflexivity|].
  rewrite scan_recurrence_skip; assumption.
Qed.

(** X17. Without any assumption on the UNTIL values: the scan returns [True]
    exactly when some rule has its UNTIL before [time_max] and no rule in
    front of it makes [strptime] raise. *)
Lemma scan_recurrence_true_exact time_max recs :
  scan_recurrence time_max recs = Ok true ↔
  ∃ front rec back,
    recs = (front ++ rec :: back)%list ∧
    Forall until_valid front ∧
    rule_until_before time_max rec.
Proof.
  split.
  - induction recs as [|rec recs IH]; [discriminate|].
    rewrite scan_recurrence_cons.
    assert (scan_recurrence time_max recs = Ok true → until_valid rec →
            ∃ front rec' back, rec :: recs = (front ++ rec' :: back)%list ∧
              Forall until_valid front ∧ rule_until_before time_max rec') as Hnext.
    { intros (front & rec' & back & -> & Hfront & Hrec)%IH Hv.
      exists (rec :: front), rec', back. auto. }
    destruct (PyStr.contains "RRULE" rec) eqn:Hc;
      [|intros H; apply Hnext; [exact H|intros Hc'; congruence]].
    destruct (Re.search_until rec) as [g|] eqn:Hg;
      [|intros H; apply Hnext; [exact H|intros _ g' Hg'; congruence]].
    destruct (Datetime.strptime (PyStr.take 13 g) Datetime.fmt_until) as [until|] eqn:Hp;
      [|discriminate].
    destruct (Datetime.lt until time_max) eqn:Hlt.
    + intros _. exists [], rec, recs.
      split; [reflexivity|]. split; [constructor|].
      split; [exact Hc|]. eauto.
    + intros H. apply Hnext; [exact H|].
      intros _ g' Hg'. rewrite Hg in Hg'. injection Hg' as <-. rewrite Hp. eauto.
  - intros (front & rec & back & -> & Hfront & Hc & g & until & Hg & Hp & Hlt).
    induction Hfront as [|r front Hr _ IH]; simpl app; rewrite scan_recurrence_cons.
    + rewrite Hc, Hg, Hp, Hlt. reflexivity.
    + destruct (PyStr.contains "RRULE" r) eqn:Hcr; [|exact IH].
      destruct (Re.search_until r) as [gr|] eqn:Hgr; [|exact IH].
      destruct (Hr Hcr gr Hgr) as [ur ->].
      destruct (Datetime.lt ur time_max); [reflexivity|exact IH].
Qed.

(** Outside the precondition of [until_valid]: a value that matches the
    pattern but names no date makes [strptime] raise, and the exception
    leaves [_event_is_passed] whatever the following rules say. *)
Example scan_recurrence_raises :
  scan_recurrence Sample.mar18
    ["RRULE:FREQ=DAILY;UNTIL=20170230T083000Z"; Sample.until_rule]
  = Raise (ValueError "time data does not match format").
Proof. reflexivity. Qed.

Example until_rule_valid : Forall until_valid [Sample.until_rule].
Proof.
  constructor; [|constructor]. intros _ g [= <-]. vm_compute. eauto.
Qed.

Example open_rule_valid : Forall until_valid [Sample.open_rule].
Proof. constructor; [|constructor]. intros _ g [=]. Qed.

(** C1 as stated fails, in two ways.  The second rule of the first series
    has an UNTIL of the required form before [time_max], but the scan stops
    at the first rule, whose UNTIL matches the pattern and names no date:
    [strptime] raises and [_event_is_passed] returns nothing.  The rule of
    the second series has such an UNTIL too, but [re.search] only gives the
    leftmost match, which is not before [time_max]: the result is [False]. *)
Lemma later_until_not_seen :
  ¬ passed_iff_some_until (Sample.sweeper Sample.svc_ok Sample.mar18 false)
      (Sample.series [Sample.feb30_rule; Sample.until_rule]) ∧
  ¬ passed_iff_some_until (Sample.sweeper Sample.svc_ok Sample.mar18 false)
      (Sample.series [Sample.two_until_rule]).
Proof.
  split; intros H.
  - specialize (H [Sample.feb30_rule; Sample.until_rule] eq_refl) as [_ H].
    assert (Exists (some_until_before Sample.mar18)
              [Sample.feb30_rule; Sample.until_rule]) as Hex.
    { right. left. split; [reflexivity|].
      exists "RRULE:FREQ=WEEKLY;", "20170317T083000Z", EmptyString,
             (mk_datetime 2017 3 17 8 30 0 0).
      repeat split; vm_compute; reflexivity. }
    specialize (H Hex). vm_compute in H. discriminate.
  - specialize (H [Sample.two_until_rule] eq_refl) as [_ H].
    assert (Exists (some_until_before Sample.mar18) [Sample.two_until_rule]) as Hex.
    { left. split; [reflexivity|].
      exists "RRULE:FREQ=WEEKLY;UNTIL=30000101T000000Z;", "20170317T083000Z",
             EmptyString, (mk_datetime 2017 3 17 8 30 0 0).
      repeat split; vm_compute; reflexivity. }
    specialize (H Hex). vm_compute in H. discriminate.
Qed.

(** C1, amended. For an event with a [recurrence] field in which every UNTIL
    value the pattern finds names a date and time that exist,
    [_event_is_passed] returns [True] exactly when some rule string contains
    RRULE and the UNTIL value the pattern finds in it (the leftmost text of
    the form YYYYMMDDTHHMMSSZ after [UNTIL=]), cut to its first 13
    characters and read as %Y%m%dT%H%M, is an instant strictly before
    [time_max], and returns [False] otherwise; a series with no UNTIL in any
    rule is never classified passed. *)
Theorem recurring_series_passed_iff (self : EventDeletion) (event : Event)
    (recs : list string) :
  recurrence event = Some recs →
  Forall until_valid recs →
  (_event_is_passed self event = Ok true
     ↔ Exists (rule_until_before (time_max self)) recs) ∧
  (_event_is_passed self event = Ok false
     ↔ ¬ Exists (rule_until_before (time_max self)) recs) ∧
  (Forall (λ rec, Re.search_until rec = None) recs →
     _event_is_passed self event = Ok false).
Proof.
  intros Hrec Hvalid. unfold _event_is_passed. rewrite Hrec.
  destruct (scan_recurrence_returns (time_max self) recs Hvalid) as [b Hb].
  split; [|split].
  - split; [apply scan_recurrence_true|].
    intros Hex. rewrite Hb. destruct b; [reflexivity|].
    destruct (scan_recurrence_false _ _ Hb Hex).
  - split; [apply scan_recurrence_false|].
    intros Hnex. rewrite Hb. destruct b; [|reflexivity].
    destruct (Hnex (scan_recurrence_true _ _ Hb)).
  - apply scan_recurrence_no_until.
Qed.

Lemma recurring_series_passed_iff_witness :
  Exists (rule_until_before Sample.mar18) [Sample.until_rule] ∧
  ¬ Exists (rule_until_before Sample.mar01) [Sample.until_rule] ∧
  _event_is_passed (Sample.sweeper Sample.svc_ok Sample.mar18 false)
    (Sample.series [Sample.open_rule]) = Ok false.
Proof.
  split; [|split].
  - apply (proj1 (proj1 (recurring_series_passed_iff
             (Sample.sweeper Sample.svc_ok Sample.mar18 false) Sample.ER
             [Sample.until_rule] eq_refl until_rule_valid))).
    reflexivity.
  - apply (proj1 (proj1 (proj2 (recurring_series_passed_iff
             (Sample.sweeper Sample.svc_ok Sample.mar01 false) Sample.ER
             [Sample.until_rule] eq_refl until_rule_valid)))).
    reflexivity.
  - apply (proj2 (proj2 (recurring_series_passed_iff
             (Sample.sweeper Sample.svc_ok Sample.mar18 false)
             (Sample.series [Sample.open_rule])
             [Sample.open_rule] eq_refl open_rule_valid))).
    constructor; [reflexivity|constructor].
Defined.

(** ** Classification of a single event *)

Lemma _get_datetime_end event :
  _get_datetime event key_end =
  match end_instant event with
  | Some d => Ok d
  | None =>
      match dateTime (end_ event), date (end_ event) with
      | None, None => Raise (TypeError "strptime() argument 1 must be str, not None")
      | _, _ => Raise (ValueError "time data does not match format")
      end
  end.
Proof.
  unfold _get_datetime, end_instant, strptime, event_item.
  destruct (dateTime (end_ event)) as [s|].
  - destruct (Datetime.strptime _ _); reflexivity.
  - destruct (date (end_ event)) as [s|]; [|reflexivity].
    destruct (Datetime.strptime _ _); reflexivity.
Qed.

Lemma _get_datetime_start event :
  _get_datetime event key_start =
  match start_instant event with
  | Some d => Ok d
  | None =>
      match dateTime (start event), date (start event) with
      | None, None => Raise (TypeError "strptime() argument 1 must be str, not None")
      | _, _ => Raise (ValueError "time data does not match format")
      end
  end.
Proof.
  unfold _get_datetime, start_instant, strptime, event_item.
  destruct (dateTime (start event)) as [s|].
  - destruct (Datetime.strptime _ _); reflexivity.
  - destruct (date (start event)) as [s|]; [|reflexivity].
    destruct (Datetime.strptime _ _); reflexivity.
Qed.

Lemma _get_datetime_start_ok event d :
  _get_datetime event key_start = Ok d ↔ start_instant event = Some d.
Proof.
  rewrite _get_datetime_start. destruct (start_instant event).
  - split; congruence.
  - destruct (dateTime (start event)), (date (start event)); split; discriminate.
Qed.

(** C2. For an event without a [recurrence] field, [_event_is_passed]
    returns [True] exactly when the end instant of the event (the first 19
    characters of its [dateTime] read with %Y-%m-%dT%H:%M:%S, or its all-day
    [date] read with %Y-%m-%d) is strictly before [time_max], and returns
    [False] exactly when that instant is not before [time_max]. *)
Theorem single_event_passed_iff (self : EventDeletion) (event : Event) :
  recurrence event = None →
  (_event_is_passed self event = Ok true
     ↔ ∃ t, end_instant event = Some t ∧ Datetime.lt t (time_max self) = true) ∧
  (_event_is_passed self event = Ok false
     ↔ ∃ t, end_instant event = Some t ∧ Datetime.lt t (time_max self) = false).
Proof.
  intros Hrec. unfold _event_is_passed. rewrite Hrec, _get_datetime_end.
  destruct (end_instant event) as [t|]; cbn.
  - split; (split; [intros [= H]; eauto|intros (t' & [= <-] & ->); reflexivity]).
  - split; (split; [|intros (t' & [=] & _)]);
      destruct (dateTime (end_ event)), (date (end_ event)); discriminate.
Qed.

Lemma single_event_passed_iff_witness :
  (∃ t, end_instant Sample.E1 = Some t ∧ Datetime.lt t Sample.mar18 = true) ∧
  (∃ t, end_instant Sample.E3 = Some t ∧ Datetime.lt t Sample.mar01 = false).
Proof.
  split.
  - apply (proj1 (proj1 (single_event_passed_iff
             (Sample.sweeper Sample.svc_ok Sample.mar18 false) Sample.E1 eq_refl))).
    reflexivity.
  - apply (proj1 (proj2 (single_event_passed_iff
             (Sample.sweeper Sample.svc_ok Sample.mar01 false) Sample.E3 eq_refl))).
    reflexivity.
Defined.

(** ** UNTIL values the pattern does not match *)

Example date_only_rule_no_exact_until :
  Forall no_exact_until [Sample.date_only_rule].
Proof. constructor; [|constructor]. apply search_until_none. reflexivity. Qed.

Lemma plain_until_prefix_app g post :
  plain_until_form g = true → plain_until_prefix (String.substring 0 16 (g ++ post)) = true.
Proof.
  unfold plain_until_form. intros [Hp Hlen]%andb_prop.
  destruct g as [|y1 [|y2 [|y3 [|y4 [|m1 [|m2 [|d1 [|d2 [|t [|h1 [|h2 [|n1 [|n2
      [|s1 [|s2 [|z [|more g]]]]]]]]]]]]]]]]]; try discriminate.
  exact Hp.
Qed.

Lemma plain_until_scan_false s : plain_until_scan s = false → no_plain_until s.
Proof.
  intros Hs pre. revert s Hs. induction pre as [|c pre IH]; intros s Hs g post ->.
  - destruct (plain_until_form g) eqn:Hg; [|reflexivity].
    change (EmptyString ++ "UNTIL=" ++ g ++ post) with ("UNTIL=" ++ g ++ post) in Hs.
    cbn [plain_until_scan String.append] in Hs.
    apply orb_false_elim in Hs as [Hs _].
    change (PyStr.startswith "UNTIL=" (String "U" (String "N" (String "T" (String "I"
              (String "L" (String "=" (g ++ post)))))))) with true in Hs.
    change (String.substring 6 16 (String "U" (String "N" (String "T" (String "I"
              (String "L" (String "=" (g ++ post))))))))
      with (String.substring 0 16 (g ++ post)) in Hs.
    rewrite (plain_until_prefix_app _ _ Hg) in Hs. discriminate.
  - rewrite app_String in Hs. cbn [plain_until_scan] in Hs.
    apply orb_false_elim in Hs as [_ Hs]. eapply IH; eauto.
Qed.

(** C9 as stated fails when the form YYYYMMDDTHHMMSSZ is read with the
    digits 0 to 9: the pattern of line 107 is a [str] pattern, whose [\d]
    matches the decimal digits of every script, and [strptime] and [int]
    read them.  The rule below carries no UNTIL value of the plain form, and
    the series is classified passed. *)
Lemma fullwidth_until_is_matched :
  ¬ inexact_until_not_passed (Sample.sweeper Sample.svc_ok Sample.mar18 false)
      (Sample.series [Sample.fullwidth_rule]).
Proof.
  intros H.
  specialize (H [Sample.fullwidth_rule] eq_refl).
  assert (Forall no_plain_until [Sample.fullwidth_rule]) as Hplain.
  { constructor; [|constructor]. apply plain_until_scan_false. vm_compute; reflexivity. }
  specialize (H Hplain). vm_compute in H. discriminate.
Qed.

(** C9, amended. When every rule of a recurring series carries no UNTIL
    value of the form YYYYMMDDTHHMMSSZ, a digit being any decimal digit of
    Unicode (the date-only UNTIL=20170317 carries none), the pattern matches
    nothing, each rule is passed over and the series is not classified
    passed, whatever [time_max] is. *)
Theorem inexact_until_never_passed (self : EventDeletion) (event : Event)
    (recs : list string) :
  recurrence event = Some recs →
  Forall no_exact_until recs →
  Forall (λ rec, Re.search_until rec = None) recs ∧
  (∀ time_max rest,
     Forall (λ rec, scan_recurrence time_max (rec :: rest)
                    = scan_recurrence time_max rest) recs) ∧
  _event_is_passed self event = Ok false.
Proof.
  intros Hrec Hrecs.
  assert (Forall (λ rec, Re.search_until rec = None) recs) as Hnone.
  { eapply Forall_impl; [exact Hrecs|]. intros rec. apply search_until_none. }
  split; [exact Hnone|split].
  - intros time_max rest. eapply Forall_impl; [exact Hnone|].
    intros rec. apply scan_recurrence_skip.
  - unfold _event_is_passed. rewrite Hrec.
    apply scan_recurrence_no_until, Hnone.
Qed.

Lemma inexact_until_never_passed_witness :
  Re.search_until Sample.date_only_rule = None ∧
  _event_is_passed (Sample.sweeper Sample.svc_ok Sample.mar18 false)
    (Sample.series [Sample.date_only_rule]) = Ok false.
Proof.
  pose proof (inexact_until_never_passed
                (Sample.sweeper Sample.svc_ok Sample.mar18 false)
                (Sample.series [Sample.date_only_rule])
                [Sample.date_only_rule] eq_refl
                date_only_rule_no_exact_until)
    as (Hnone & _ & Hpassed).
  split; [|exact Hpassed].
  inversion Hnone; assumption.
Defined.

Local Open Scope list_scope.

(** ** One deletion attempt *)

Lemma attempt_delete_simulation self w event_id :
  confirm_delete self = false →
  attempt_delete self w event_id = (add_deleted event_id w, "DELETED").
Proof. intros H. unfold attempt_delete. rewrite H. reflexivity. Qed.

Lemma attempt_delete_ok self w event_id u :
  confirm_delete self = true →
  svc_delete (service self) (calls w) event_id = Ok u →
  attempt_delete self w event_id =
  (add_deleted event_id
     (record_call (ApiDelete "primary" event_id "none" (Ok u)) (sleep w)),
   "DELETED").
Proof.
  intros Hc Hs. unfold attempt_delete. rewrite Hc. simpl. rewrite Hs. reflexivity.
Qed.

Lemma attempt_delete_error self w event_id e :
  confirm_delete self = true →
  svc_delete (service self) (calls w) event_id = Raise e →
  attempt_delete self w event_id =
  (foldl (λ w line, print line w)
     (record_call (ApiDelete "primary" event_id "none" (Raise e)) (sleep w))
     (error_log e),
   error_result e).
Proof.
  intros Hc Hs. unfold attempt_delete. rewrite Hc. simpl. rewrite Hs.
  destruct e as [status msg| | | |]; simpl; try reflexivity.
  destruct (status =? 410); reflexivity.
Qed.

Lemma _delete_event_skip self w event :
  id_ event ∈ deleted_events w → _delete_event self w event = Ok w.
Proof. intros H. unfold _delete_event. rewrite bool_decide_eq_true_2; done. Qed.

Lemma _delete_event_attempt self w event :
  id_ event ∉ deleted_events w →
  _delete_event self w event =
  (event_date ← _get_datetime event key_start;
   let r := attempt_delete self w (id_ event) in
   Ok (note_attempt (id_ event) r.2
         (print (status_line r.2 event_date event) r.1))).
Proof.
  intros H. unfold _delete_event. rewrite bool_decide_eq_false_2 by done.
  destruct (attempt_delete self w (id_ event)) as [w1 res]. reflexivity.
Qed.

Lemma attempt_delete_result self w event_id :
  (attempt_delete self w event_id).2 ∈ results.
Proof.
  unfold attempt_delete, results.
  destruct (confirm_delete self); [|set_solver].
  simpl. destruct (svc_delete _ _ _) as [u|[status msg| | | |]]; simpl;
    try destruct (status =? 410); simpl; set_solver.
Qed.

(** In confirmed mode the result tells what the delete call answered. *)
Lemma attempt_delete_outcome self w event_id :
  confirm_delete self = true →
  ((attempt_delete self w event_id).2 = "DELETED"
     ↔ ∃ u, svc_delete (service self) (calls w) event_id = Ok u) ∧
  ((attempt_delete self w event_id).2 = "ALREADY DELETED"
     ↔ ∃ msg, svc_delete (service self) (calls w) event_id = Raise (HttpError 410 msg)).
Proof.
  intros Hc. unfold attempt_delete. rewrite Hc. simpl.
  destruct (svc_delete _ _ _) as [u|[status msg| | | |]]; simpl;
    try destruct (status =? 410) eqn:E; simpl;
    (split; split; [intros H| |intros H|]);
    try (intros [x H]); try discriminate; eauto.
  - apply Nat.eqb_eq in E as ->. eauto.
  - injection H as -> _. discriminate.
Qed.

(** The Deleted-Set after an attempt: one more identifier when the result is
    DELETED, unchanged otherwise. *)
Lemma attempt_delete_set self w event_id :
  deleted_events (attempt_delete self w event_id).1 =
  if decide ((attempt_delete self w event_id).2 = "DELETED")
  then {[event_id]} ∪ deleted_events w else deleted_events w.
Proof.
  unfold attempt_delete.
  destruct (confirm_delete self); [|reflexivity].
  simpl. destruct (svc_delete _ _ _) as [u|[status msg| | | |]]; simpl;
    try destruct (status =? 410); reflexivity.
Qed.

Lemma attempt_delete_stdout self w event_id :
  ∃ logged, stdout (attempt_delete self w event_id).1 = stdout w ++ logged ∧
            length logged ≤ 1 ∧
            ((attempt_delete self w event_id).2 ≠ "FAILED " → logged = []).
Proof.
  unfold attempt_delete.
  destruct (confirm_delete self);
    [|exists []; simpl; rewrite app_nil_r; auto].
  simpl. destruct (svc_delete _ _ _) as [u|[status msg| | | |]]; simpl;
    try destruct (status =? 410); simpl;
    first [ exists []; simpl; rewrite app_nil_r; split; [reflexivity|split; [lia|auto]]
          | eexists [_]; split; [reflexivity|split; [simpl; lia|congruence]] ].
Qed.

Lemma attempt_delete_failed self w event_id :
  (attempt_delete self w event_id).2 = "FAILED " →
  ∃ e, svc_delete (service self) (calls w) event_id = Raise e ∧
       (∀ msg, e ≠ HttpError 410 msg) ∧
       stdout (attempt_delete self w event_id).1 = stdout w ++ [exn_str e].
Proof.
  unfold attempt_delete.
  destruct (confirm_delete self); [|discriminate].
  cbn [calls sleep].
  destruct (svc_delete (service self) (calls w) event_id) as [u|e] eqn:E;
    [discriminate|].
  destruct e as [status msg|msg|msg|msg|msg]; cbn;
    try (intros _; eexists; split; [reflexivity|]; split; [discriminate|reflexivity]).
  destruct (status =? 410) eqn:Hs; [discriminate|].
  intros _. eexists. split; [reflexivity|]. split; [|reflexivity].
  intros msg' [= -> _]. discriminate.
Qed.

Lemma attempt_delete_attempts self w event_id :
  attempts (attempt_delete self w event_id).1 = attempts w.
Proof.
  unfold attempt_delete.
  destruct (confirm_delete self); [|reflexivity].
  simpl. destruct (svc_delete _ _ _) as [u|[status msg| | | |]]; simpl;
    try destruct (status =? 410); reflexivity.
Qed.

Lemma delete_calls_app event_id cs cs' :
  delete_calls event_id (cs ++ cs') = delete_calls event_id cs + delete_calls event_id cs'.
Proof. unfold delete_calls. rewrite List.filter_app, length_app. reflexivity. Qed.

Lemma attempt_delete_calls self w event_id :
  ∃ new, calls (attempt_delete self w event_id).1 = calls w ++ new ∧
         delete_calls event_id new = (if confirm_delete self then 1 else 0) ∧
         (confirm_delete self = false → new = []).
Proof.
  unfold attempt_delete.
  destruct (confirm_delete self);
    [|exists []; simpl; rewrite app_nil_r; auto].
  exists [ApiDelete "primary" event_id "none"
            (svc_delete (service self) (calls (sleep w)) event_id)].
  split; [|split; [|discriminate]].
  - simpl. destruct (svc_delete _ _ _) as [u|[status msg| | | |]]; simpl;
      try destruct (status =? 410); reflexivity.
  - unfold delete_calls. simpl. destruct (string_dec event_id event_id); [reflexivity|congruence].
Qed.

Lemma process_items_cons self w event rest :
  process_items self w (event :: rest) =
  (w' ← process_event self w event; process_items self w' rest).
Proof. reflexivity. Qed.

Lemma process_event_plain self w event :
  recurringEventId event = None →
  process_event self w event =
  (passed ← _event_is_passed self event;
   if passed : bool then _delete_event self w event else Ok w).
Proof. intros H. unfold process_event, _is_recurrent. rewrite H. reflexivity. Qed.

Lemma foldl_print_stdout w lines :
  stdout (foldl (λ w line, print line w) w lines) = stdout w ++ lines.
Proof.
  revert w. induction lines as [|l lines IH]; intros w; simpl.
  - rewrite app_nil_r. reflexivity.
  - rewrite IH. simpl. rewrite <- app_assoc. reflexivity.
Qed.

Lemma foldl_print_other w lines :
  let w' := foldl (λ w line, print line w) w lines in
  deleted_events w' = deleted_events w ∧ calls w' = calls w ∧
  sleeps w' = sleeps w ∧ attempts w' = attempts w.
Proof.
  revert w. induction lines as [|l lines IH]; intros w; simpl; [auto|].
  destruct (IH (print l w)) as (-> & -> & -> & ->). auto.
Qed.

(** C4 as stated fails: the status line is built after the [try] block
    (line 159), from the start of the event.  For an event whose start
    cannot be read, the exception of the delete call is caught and then
    [_get_datetime] raises: the call does not return normally. *)
Lemma delete_error_then_unreadable_start :
  ¬ delete_error_returns (Sample.sweeper Sample.svc_refusing Sample.mar18 true)
      init_world Sample.E5.
Proof.
  intros H.
  destruct (H eq_refl (not_elem_of_empty _) (HttpError 500 "Backend Error") eq_refl)
    as [w' Hw']. vm_compute in Hw'. discriminate.
Qed.

(** C4, amended. For an event whose start can be read: when the external
    delete call raises, [_delete_event] turns the exception into a result:
    HTTP 410 gives ALREADY DELETED and prints nothing more; any other
    exception is printed and gives FAILED (the literal of lines 154 and 157
    carries a trailing blank).  In both cases the call returns, with the
    Deleted-Set unchanged, and the [for] loop goes on with the remaining
    events. *)
Theorem delete_error_mapping (self : EventDeletion) (w : World) (event : Event)
    (e : exn) (event_date : datetime) :
  confirm_delete self = true →
  id_ event ∉ deleted_events w →
  svc_delete (service self) (calls w) (id_ event) = Raise e →
  start_instant event = Some event_date →
  ∃ w' res logged,
    _delete_event self w event = Ok w' ∧
    stdout w' = stdout w ++ logged ++ [status_line res event_date event] ∧
    attempts w' = attempts w ++ [(id_ event, res)] ∧
    deleted_events w' = deleted_events w ∧
    ((∃ msg, e = HttpError 410 msg) → res = "ALREADY DELETED" ∧ logged = []) ∧
    ((∀ msg, e ≠ HttpError 410 msg) → res = "FAILED " ∧ logged = [exn_str e]) ∧
    (∀ rest, recurringEventId event = None →
             _event_is_passed self event = Ok true →
             process_items self w (event :: rest) = process_items self w' rest).
Proof.
  intros Hc Hnew Hraise Hstart.
  pose proof (_delete_event_attempt self w event Hnew) as Hd.
  apply _get_datetime_start_ok in Hstart. rewrite Hstart in Hd. cbn in Hd.
  rewrite (attempt_delete_error self w (id_ event) e Hc Hraise) in Hd.
  cbn [fst snd] in Hd.
  eexists _, (error_result e), (error_log e). split; [exact Hd|].
  destruct (foldl_print_other
              (record_call (ApiDelete "primary" (id_ event) "none" (Raise e)) (sleep w))
              (error_log e)) as (Hset & _ & _ & Hatt).
  split; [|split; [|split; [|split; [|split]]]].
  - cbn [stdout note_attempt print]. rewrite foldl_print_stdout.
    rewrite <- app_assoc. reflexivity.
  - cbn [attempts note_attempt print]. rewrite Hatt. reflexivity.
  - cbn [deleted_events note_attempt print]. rewrite Hset. reflexivity.
  - intros [msg ->]. split; reflexivity.
  - intros Hother. destruct e as [status msg| | | |]; try (split; reflexivity).
    simpl. destruct (status =? 410) eqn:E; [|split; reflexivity].
    apply Nat.eqb_eq in E as ->. destruct (Hother msg eq_refl).
  - intros rest Hplain Hpassed.
    rewrite process_items_cons, (process_event_plain _ _ _ Hplain), Hpassed.
    cbn. rewrite Hd. reflexivity.
Qed.

Lemma delete_error_mapping_witness :
  (∃ w', _delete_event (Sample.sweeper Sample.svc_refusing Sample.mar18 true)
           init_world Sample.E1 = Ok w' ∧
         attempts w' = [("e1", "FAILED ")]) ∧
  (∃ w', _delete_event (Sample.sweeper Sample.svc_gone Sample.mar18 true)
           Run.series_gone Sample.E2 = Ok w' ∧
         attempts w' = [("e2", "ALREADY DELETED")]).
Proof.
  split.
  - destruct (delete_error_mapping
                (Sample.sweeper Sample.svc_refusing Sample.mar18 true)
                init_world Sample.E1 (HttpError 500 "Backend Error")
                (mk_datetime 2017 3 10 9 0 0 0)
                eq_refl (not_elem_of_empty _) eq_refl eq_refl)
      as (w' & res & logged & Hd & _ & Hatt & _ & _ & Hfailed & _).
    exists w'. split; [exact Hd|].
    destruct (Hfailed ltac:(discriminate)) as [-> _]. exact Hatt.
  - destruct (delete_error_mapping
                (Sample.sweeper Sample.svc_gone Sample.mar18 true)
                Run.series_gone Sample.E2 (HttpError 410 "Resource has been deleted")
                (mk_datetime 2017 3 13 9 0 0 0)
                eq_refl (not_elem_of_empty _) eq_refl eq_refl)
      as (w' & res & logged & Hd & _ & Hatt & _ & Hgone & _).
    exists w'. split; [exact Hd|].
    destruct (Hgone ltac:(eauto)) as [-> _]. exact Hatt.
Defined.

(** C5 as stated fails: with a service that refuses the deletion the attempt
    is not skipped, and yet the identifier is not in the Deleted-Set
    afterwards. *)
Lemma failed_attempt_not_recorded :
  ¬ attempt_records_id (Sample.sweeper Sample.svc_refusing Sample.mar18 true)
      init_world Sample.E1.
Proof.
  intros H.
  specialize (H (not_elem_of_empty _)
                (Run.after (_delete_event
                   (Sample.sweeper Sample.svc_refusing Sample.mar18 true)
                   init_world Sample.E1)) eq_refl).
  revert H. apply not_elem_of_empty.
Qed.

(** C5, amended. For an event whose start can be read, an attempt that is
    not skipped prints exactly one status line
    [{result} - {event_date} - {recurrent_tag}{summary}] with [result] among
    DELETED, ALREADY DELETED and FAILED (written with a trailing blank), in
    confirmed and in simulation mode alike; when the result is FAILED the
    line comes after one line with the text of the exception the delete call
    raised, otherwise nothing else is printed.  The identifier joins the
    Deleted-Set when the result is DELETED, which is always so in simulation
    mode and, in confirmed mode, means that the delete call succeeded; after
    ALREADY DELETED (the call answered 410) or FAILED the set is
    unchanged. *)
Theorem delete_attempt_effects (self : EventDeletion) (w : World) (event : Event)
    (event_date : datetime) :
  id_ event ∉ deleted_events w →
  start_instant event = Some event_date →
  ∃ w' res logged,
    _delete_event self w event = Ok w' ∧
    res ∈ results ∧
    stdout w' = stdout w ++ logged ++ [status_line res event_date event] ∧
    length logged ≤ 1 ∧
    (res ≠ "FAILED " → logged = []) ∧
    (res = "FAILED " →
       ∃ e, svc_delete (service self) (calls w) (id_ event) = Raise e ∧
            (∀ msg, e ≠ HttpError 410 msg) ∧
            logged = [exn_str e]) ∧
    attempts w' = attempts w ++ [(id_ event, res)] ∧
    deleted_events w' =
      (if decide (res = "DELETED") then {[id_ event]} ∪ deleted_events w
       else deleted_events w) ∧
    (confirm_delete self = false → res = "DELETED" ∧ calls w' = calls w) ∧
    (confirm_delete self = true →
       (res = "DELETED"
          ↔ ∃ u, svc_delete (service self) (calls w) (id_ event) = Ok u) ∧
       (res = "ALREADY DELETED"
          ↔ ∃ msg, svc_delete (service self) (calls w) (id_ event)
                   = Raise (HttpError 410 msg))).
Proof.
  intros Hnew Hstart.
  pose proof (_delete_event_attempt self w event Hnew) as Hd.
  apply _get_datetime_start_ok in Hstart. rewrite Hstart in Hd. cbn in Hd.
  destruct (attempt_delete_stdout self w (id_ event)) as (logged & Hout & Hlen & Hlog).
  eexists _, _, logged. split; [exact Hd|].
  split; [apply attempt_delete_result|].
  split; [cbn [stdout note_attempt print]; rewrite Hout, <- app_assoc; reflexivity|].
  split; [exact Hlen|]. split; [exact Hlog|].
  split.
  { intros Hres. destruct (attempt_delete_failed _ _ _ Hres) as (e & He & Hne & Hlogged).
    exists e. split; [exact He|]. split; [exact Hne|].
    rewrite Hout in Hlogged. exact (app_inv_head _ _ _ Hlogged). }
  split; [cbn [attempts note_attempt print]; rewrite attempt_delete_attempts; reflexivity|].
  split; [cbn [deleted_events note_attempt print]; apply attempt_delete_set|].
  split; [|apply attempt_delete_outcome].
  intros Hsim. rewrite (attempt_delete_simulation _ _ _ Hsim). auto.
Qed.

Lemma delete_attempt_effects_witness :
  ∃ w', _delete_event (Sample.sweeper Sample.svc_ok Sample.mar18 false)
          init_world Sample.E1 = Ok w' ∧
        stdout w' = ["DELETED - 2017-03-10 09:00:00 - Dentist"] ∧
        "e1" ∈ deleted_events w'.
Proof.
  destruct (delete_attempt_effects
              (Sample.sweeper Sample.svc_ok Sample.mar18 false)
              init_world Sample.E1 (mk_datetime 2017 3 10 9 0 0 0)
              (not_elem_of_empty _) eq_refl)
    as (w' & res & logged & Hd & _ & Hout & _ & Hlog & _ & _ & Hset & Hsim & _).
  destruct (Hsim eq_refl) as [-> _].
  rewrite (Hlog ltac:(discriminate)) in Hout.
  exists w'. split; [exact Hd|]. split; [exact Hout|].
  rewrite Hset. apply elem_of_union_l, elem_of_singleton. reflexivity.
Defined.

(** C3 as stated fails: when the delete call of the first attempt raised,
    the identifier is not recorded and the second call asks the service
    again. *)
Lemma second_call_repeats_failed_delete :
  ¬ second_call_noop (Sample.sweeper Sample.svc_refusing Sample.mar18 true)
      init_world Sample.E1.
Proof.
  intros H.
  pose (w1 := Run.after (_delete_event
                (Sample.sweeper Sample.svc_refusing Sample.mar18 true)
                init_world Sample.E1)).
  pose (w2 := Run.after (_delete_event
                (Sample.sweeper Sample.svc_refusing Sample.mar18 true)
                w1 Sample.E1)).
  destruct (H w1 w2 eq_refl eq_refl) as [_ Hcalls].
  vm_compute in Hcalls. lia.
Qed.

(** C3, amended. When the first call ends with the identifier recorded (it
    was recorded already, or the run is a simulation, or the delete call
    succeeded), a second call with the same identifier finds it in the
    Deleted-Set and is a no-op: no API call, no output, no state change; the
    two calls together make at most one delete call. *)
Theorem second_call_after_recorded (self : EventDeletion) (w w1 : World)
    (event event' : Event) :
  id_ event' = id_ event →
  _delete_event self w event = Ok w1 →
  (id_ event ∈ deleted_events w ∨ confirm_delete self = false ∨
   ∃ u, svc_delete (service self) (calls w) (id_ event) = Ok u) →
  id_ event ∈ deleted_events w1 ∧
  _delete_event self w1 event' = Ok w1 ∧
  delete_calls (id_ event) (calls w1) ≤ 1 + delete_calls (id_ event) (calls w).
Proof.
  intros Hid Hd Hfirst.
  assert (id_ event ∈ deleted_events w1 ∧
          delete_calls (id_ event) (calls w1) ≤ 1 + delete_calls (id_ event) (calls w))
    as [Hin Hcalls].
  { destruct (decide (id_ event ∈ deleted_events w)) as [Hold|Hnew].
    { rewrite (_delete_event_skip _ _ _ Hold) in Hd. injection Hd as <-.
      split; [exact Hold|lia]. }
    rewrite (_delete_event_attempt _ _ _ Hnew) in Hd.
    destruct (_get_datetime event key_start) as [d|]; [|discriminate].
    cbn in Hd. injection Hd as <-.
    cbn [deleted_events calls note_attempt print].
    split.
    - rewrite attempt_delete_set.
      destruct Hfirst as [Hold|[Hsim|[u Hok]]]; [done| |].
      + rewrite (attempt_delete_simulation _ _ _ Hsim). simpl. set_solver.
      + destruct (confirm_delete self) eqn:Hc.
        * rewrite (attempt_delete_ok _ _ _ u Hc Hok). simpl. set_solver.
        * rewrite (attempt_delete_simulation _ _ _ Hc). simpl. set_solver.
    - destruct (attempt_delete_calls self w (id_ event)) as (new & -> & Hn & _).
      rewrite delete_calls_app, Hn. destruct (confirm_delete self); lia. }
  split; [exact Hin|]. split; [|exact Hcalls].
  apply _delete_event_skip. rewrite Hid. exact Hin.
Qed.

Lemma second_call_after_recorded_witness :
  ∃ w1, _delete_event (Sample.sweeper Sample.svc_ok Sample.mar18 true)
          init_world Sample.E1 = Ok w1 ∧
        _delete_event (Sample.sweeper Sample.svc_ok Sample.mar18 true)
          w1 Sample.E1 = Ok w1 ∧
        delete_calls "e1" (calls w1) ≤ 1.
Proof.
  exists (Run.after (_delete_event (Sample.sweeper Sample.svc_ok Sample.mar18 true)
                       init_world Sample.E1)).
  split; [reflexivity|].
  apply (second_call_after_recorded
           (Sample.sweeper Sample.svc_ok Sample.mar18 true) init_world _
           Sample.E1 Sample.E1 eq_refl eq_refl).
  right. right. exists tt. reflexivity.
Defined.

(** X18. The other case, for events whose start can be read: when the
    delete call of the first attempt raised, the identifier stays out of the
    Deleted-Set and a second call sends the deletion again. *)
Lemma failed_delete_is_retried (self : EventDeletion) (w : World)
    (event event' : Event) (e : exn) (d d' : datetime) :
  confirm_delete self = true →
  id_ event ∉ deleted_events w →
  svc_delete (service self) (calls w) (id_ event) = Raise e →
  start_instant event = Some d →
  id_ event' = id_ event →
  start_instant event' = Some d' →
  ∃ w1 w2,
    _delete_event self w event = Ok w1 ∧
    id_ event ∉ deleted_events w1 ∧
    _delete_event self w1 event' = Ok w2 ∧
    delete_calls (id_ event) (calls w2) = 2 + delete_calls (id_ event) (calls w).
Proof.
  intros Hc Hnew Hraise Hd Hid Hd'.
  apply _get_datetime_start_ok in Hd, Hd'.
  pose proof (_delete_event_attempt self w event Hnew) as H1.
  rewrite Hd in H1. cbn in H1.
  eexists _, _. split; [exact H1|].
  assert (id_ event ∉ deleted_events (attempt_delete self w (id_ event)).1) as Hnew1.
  { rewrite attempt_delete_set, (attempt_delete_error _ _ _ _ Hc Hraise).
    cbn [snd]. case_decide as Hres; [|exact Hnew].
    destruct e as [status msg| | | |]; simpl in Hres;
      try destruct (status =? 410); discriminate. }
  split; [exact Hnew1|].
  rewrite <- Hid in Hnew1 |- *.
  match goal with
  | |- _delete_event _ ?w1 _ = _ ∧ _ =>
      pose proof (_delete_event_attempt self w1 event' Hnew1) as H2
  end.
  rewrite Hd' in H2. cbn in H2. split; [exact H2|].
  cbn [calls note_attempt print].
  match goal with
  | |- context [attempt_delete self ?w1 (id_ event')] =>
      destruct (attempt_delete_calls self w1 (id_ event')) as (new2 & -> & Hn2 & _)
  end.
  cbn [calls note_attempt print].
  rewrite Hid. destruct (attempt_delete_calls self w (id_ event)) as (new1 & -> & Hn1 & _).
  rewrite Hid in Hn2. rewrite !delete_calls_app, Hn1, Hn2, Hc. lia.
Qed.

(** ** What one call does to the world *)

Lemma extends_refl w : extends w w.
Proof.
  split; [done|exists []|exists []|exists []]; rewrite ?app_nil_r; auto.
Qed.

Lemma list_calls_app cs cs' : list_calls (cs ++ cs') = list_calls cs ++ list_calls cs'.
Proof.
  induction cs as [|c cs IH]; [reflexivity|].
  destruct c; simpl; rewrite IH; reflexivity.
Qed.

Lemma extends_trans w1 w2 w3 : extends w1 w2 → extends w2 w3 → extends w1 w3.
Proof.
  intros [S1 (c1 & C1 & L1) (o1 & O1) (a1 & A1)] [S2 (c2 & C2 & L2) (o2 & O2) (a2 & A2)].
  split.
  - set_solver.
  - exists (c1 ++ c2). rewrite C2, C1, <- app_assoc, list_calls_app, L1, L2. auto.
  - exists (o1 ++ o2). rewrite O2, O1, <- app_assoc. reflexivity.
  - exists (a1 ++ a2). rewrite A2, A1, <- app_assoc. reflexivity.
Qed.


Lemma attempt_delete_extends self w event_id :
  extends w (attempt_delete self w event_id).1.
Proof.
  split.
  - rewrite attempt_delete_set. case_decide; set_solver.
  - unfold attempt_delete. destruct (confirm_delete self);
      [|exists []; simpl; rewrite app_nil_r; auto].
    exists [ApiDelete "primary" event_id "none"
              (svc_delete (service self) (calls (sleep w)) event_id)].
    split; [|reflexivity].
    simpl. destruct (svc_delete _ _ _) as [u|[status msg| | | |]]; simpl;
      try destruct (status =? 410); reflexivity.
  - destruct (attempt_delete_stdout self w event_id) as (logged & H & _). eauto.
  - exists []. rewrite attempt_delete_attempts, app_nil_r. reflexivity.
Qed.

Lemma _delete_event_extends self w event w' :
  _delete_event self w event = Ok w' → extends w w'.
Proof.
  destruct (decide (id_ event ∈ deleted_events w)) as [Hold|Hnew].
  - rewrite (_delete_event_skip _ _ _ Hold). intros [= <-]. apply extends_refl.
  - rewrite (_delete_event_attempt _ _ _ Hnew).
    destruct (_get_datetime event key_start) as [d|]; [|discriminate].
    cbn. intros [= <-].
    eapply extends_trans; [apply attempt_delete_extends|].
    split; cbn; [done|exists []|eexists [_]|eexists [_]];
      rewrite ?app_nil_r; auto.
Qed.

Lemma record_get_extends w rid resp :
  extends w (record_call (ApiGet "primary" rid resp) w).
Proof.
  split; cbn; [done|eexists [_]|exists []|exists []]; rewrite ?app_nil_r; auto.
Qed.

Lemma process_event_extends self w event w' :
  process_event self w event = Ok w' → extends w w'.
Proof.
  unfold process_event.
  assert (∀ w0 ev r, extends w w0 →
            (passed ← _event_is_passed self ev;
             if passed : bool then _delete_event self w0 ev else Ok w0) = Ok r →
            extends w r) as Hstep.
  { intros w0 ev r H0. destruct (_event_is_passed self ev) as [[|]|]; cbn.
    - intros H. eapply extends_trans; [exact H0|]. eapply _delete_event_extends, H.
    - intros [= <-]. exact H0.
    - discriminate. }
  destruct (_is_recurrent event).
  - destruct (recurringEventId event) as [rid|]; [|discriminate].
    destruct (svc_get (service self) (calls w) rid) as [rec_event|] eqn:Hget;
      [|discriminate].
    cbn.
    destruct (_event_is_passed self rec_event) as [pp|] eqn:Hpp; [|discriminate].
    cbn.
    destruct (if pp then _ else _) as [w1|] eqn:Hw1; [|discriminate]. cbn.
    apply Hstep.
    eapply (Hstep _ rec_event); [apply record_get_extends|].
    rewrite Hpp. exact Hw1.
  - cbn. apply Hstep, extends_refl.
Qed.


(** ** The page loop *)

Lemma delete_events_from_S fuel self w page_token :
  delete_events_from (S fuel) self w page_token =
  let req := list_request self page_token in
  match svc_list (service self) (calls w) req with
  | Raise e => Aborted e
  | Ok events =>
      match process_items self (record_call (ApiList req (Ok events)) w) (items events) with
      | Raise e => Aborted e
      | Ok w1 =>
          if token_falsy (nextPageToken events) then Finished w1
          else delete_events_from fuel self w1 (nextPageToken events)
      end
  end.
Proof. simpl. destruct (svc_list _ _ _); reflexivity. Qed.


Lemma list_request_ok self page_token : request_ok self (list_request self page_token).
Proof. repeat split. Qed.



Lemma delete_events_from_more fuel k self w page_token :
  delete_events_from (fuel + k) self w page_token =
  match delete_events_from fuel self w page_token with
  | Running w1 tok1 => delete_events_from k self w1 tok1
  | r => r
  end.
Proof.
  revert w page_token. induction fuel as [|fuel IH]; intros w page_token.
  - reflexivity.
  - change (S fuel + k) with (S (fuel + k)). rewrite !delete_events_from_S. cbv zeta.
    destruct (svc_list _ _ _) as [events|]; [|reflexivity].
    destruct (process_items _ _ _) as [w1|]; [|reflexivity].
    destruct (token_falsy _); [reflexivity|apply IH].
Qed.

(** Once the loop has ended, more iterations change nothing. *)
Lemma delete_events_from_finished fuel k self w page_token w' :
  delete_events_from fuel self w page_token = Finished w' →
  delete_events_from (fuel + k) self w page_token = Finished w'.
Proof. intros H. rewrite delete_events_from_more, H. reflexivity. Qed.

(** ** Properties kept along a sweep *)

Section Preserved.

Variable self : EventDeletion.
Variable P : World → Prop.
Hypothesis P_call : ∀ w c, is_delete c = false → P w → P (record_call c w).
Hypothesis P_delete : ∀ w event w', P w → _delete_event self w event = Ok w' → P w'.

Lemma classify_delete_preserves w event w' :
  P w →
  (passed ← _event_is_passed self event;
   if passed : bool then _delete_event self w event else Ok w) = Ok w' →
  P w'.
Proof.
  intros Hw. destruct (_event_is_passed self event) as [[|]|]; cbn.
  - apply P_delete, Hw.
  - intros [= <-]. exact Hw.
  - discriminate.
Qed.

Lemma process_event_preserves w event w' :
  P w → process_event self w event = Ok w' → P w'.
Proof.
  intros Hw. unfold process_event.
  destruct (_is_recurrent event).
  - destruct (recurringEventId event) as [rid|]; [|discriminate].
    destruct (svc_get (service self) (calls w) rid) as [rec_event|] eqn:Hget;
      [|discriminate].
    cbn.
    destruct (_event_is_passed self rec_event) as [pp|] eqn:Hpp; [|discriminate].
    cbn.
    destruct (if pp then _ else _) as [w1|] eqn:Hw1; [|discriminate]. cbn.
    apply classify_delete_preserves.
    apply (classify_delete_preserves
             (record_call (ApiGet "primary" rid (Ok rec_event)) w) rec_event).
    + apply P_call; [reflexivity|exact Hw].
    + rewrite Hpp. exact Hw1.
  - cbn. apply classify_delete_preserves, Hw.
Qed.

Lemma process_items_preserves w events w' :
  P w → process_items self w events = Ok w' → P w'.
Proof.
  revert w. induction events as [|event rest IH]; intros w Hw.
  - intros [= <-]. exact Hw.
  - rewrite process_items_cons.
    destruct (process_event self w event) as [w1|] eqn:H1; [|discriminate].
    cbn. apply IH. eapply process_event_preserves; eauto.
Qed.

Lemma delete_events_from_preserves fuel w page_token :
  P w →
  match delete_events_from fuel self w page_token with
  | Finished w' | Running w' _ => P w'
  | Aborted _ => True
  end.
Proof.
  revert w page_token. induction fuel as [|fuel IH]; intros w page_token Hw.
  - exact Hw.
  - rewrite delete_events_from_S. cbv zeta.
    destruct (svc_list _ _ _) as [events|]; [|exact I].
    destruct (process_items _ _ _) as [w1|] eqn:Hitems; [|exact I].
    assert (P w1) as Hw1.
    { eapply process_items_preserves; [|exact Hitems].
      apply P_call; [reflexivity|exact Hw]. }
    destruct (token_falsy _); [exact Hw1|apply IH, Hw1].
Qed.

End Preserved.

(** ** The Deleted-Set and the final count *)

Lemma deleted_ids_snoc atts event_id res :
  deleted_ids (atts ++ [(event_id, res)]) =
  deleted_ids atts ++ (if decide (res = "DELETED") then [event_id] else []).
Proof.
  unfold deleted_ids. rewrite List.filter_app, map_app. f_equal.
  simpl. case_decide as Hres.
  - subst res. reflexivity.
  - destruct (String.eqb res "DELETED") eqn:E; [|reflexivity].
    apply String.eqb_eq in E. contradiction.
Qed.

Lemma _delete_event_counted self w event w' :
  counted w → _delete_event self w event = Ok w' → counted w'.
Proof.
  unfold counted. intros Hw.
  destruct (decide (id_ event ∈ deleted_events w)) as [Hold|Hnew].
  - rewrite (_delete_event_skip _ _ _ Hold). intros [= <-]. exact Hw.
  - rewrite (_delete_event_attempt _ _ _ Hnew).
    destruct (_get_datetime event key_start) as [d|]; [|discriminate].
    cbn. intros [= <-]. cbn [deleted_events attempts note_attempt print].
    rewrite attempt_delete_set, attempt_delete_attempts, deleted_ids_snoc, Hw.
    rewrite list_to_set_app_L. case_decide; simpl; set_solver.
Qed.

Lemma size_list_to_set_dups (l : list string) :
  size (list_to_set l : gset string) = length (remove_dups l).
Proof.
  rewrite <- (size_list_to_set (C := gset string) (remove_dups l))
    by apply NoDup_remove_dups.
  f_equal. apply set_eq. intros x.
  rewrite !elem_of_list_to_set, elem_of_remove_dups. reflexivity.
Qed.

(** C10. No operation removes an identifier from the Deleted-Set: the set
    after a call to [_delete_event], and the set at the end of a sweep,
    contain the set of any earlier moment.  When [delete_events] has
    completed, the Deleted-Set holds exactly the identifiers whose attempt
    ended in DELETED, so the count reported is the number of distinct such
    identifiers. *)
Theorem reported_count_counts_deleted (fuel : nat) (self : EventDeletion)
    (w' : World) :
  delete_events fuel self init_world = Finished w' →
  (∀ w event w1, _delete_event self w event = Ok w1 →
                 deleted_events w ⊆ deleted_events w1) ∧
  (∀ n w1 tok, delete_events n self init_world = Running w1 tok →
               deleted_events w1 ⊆ deleted_events w') ∧
  deleted_events w' = list_to_set (deleted_ids (attempts w')) ∧
  reported_count w' = length (remove_dups (deleted_ids (attempts w'))).
Proof.
  intros Hrun.
  assert (counted w') as Hcounted.
  { pose proof (delete_events_from_preserves self counted
                  (λ w c _ H, H) (λ w ev w1, _delete_event_counted self w ev w1)
                  fuel init_world None) as H.
    unfold delete_events in Hrun. rewrite Hrun in H. apply H. reflexivity. }
  split; [|split; [|split]].
  - intros w event w1 H. apply _delete_event_extends in H. apply H.
  - intros n w1 tok Hn. unfold delete_events in *.
    destruct (Nat.le_gt_cases fuel n) as [Hle|Hlt].
    + replace n with (fuel + (n - fuel)) in Hn by lia.
      rewrite (delete_events_from_finished _ _ _ _ _ _ Hrun) in Hn. discriminate.
    + replace fuel with (n + (fuel - n)) in Hrun by lia.
      rewrite delete_events_from_more, Hn in Hrun.
      pose proof (delete_events_from_preserves self
                    (λ w, deleted_events w1 ⊆ deleted_events w)
                    (λ w c _ H, H)
                    (λ w ev w2 H Hd,
                       transitivity H (ext_set _ _ (_delete_event_extends _ _ _ _ Hd)))
                    (fuel - n) w1 tok) as H.
      rewrite Hrun in H. apply H. reflexivity.
  - exact Hcounted.
  - unfold reported_count. rewrite Hcounted. apply size_list_to_set_dups.
Qed.
Lemma reported_count_counts_deleted_witness :
  ∃ w', delete_events 2 (Sample.sweeper Sample.svc_ok Sample.mar18 true) init_world
        = Finished w' ∧ reported_count w' = 3.
Proof.
  exists (Run.final (delete_events 2 (Sample.sweeper Sample.svc_ok Sample.mar18 true)
                       init_world)).
  assert (delete_events 2 (Sample.sweeper Sample.svc_ok Sample.mar18 true) init_world
          = Finished (Run.final (delete_events 2
               (Sample.sweeper Sample.svc_ok Sample.mar18 true) init_world))) as E
    by (vm_compute; reflexivity).
  split; [exact E|].
  destruct (reported_count_counts_deleted 2 _ _ E) as (_ & _ & _ & ->).
  vm_compute. reflexivity.
Defined.


(** One iteration on the listing of [Sample.svc_endless] returns with the
    token [T] pending, whatever the state it starts in. *)
Lemma endless_listing_step w page_token :
  ∃ w1, delete_events_from 1 (Sample.sweeper Sample.svc_endless Sample.mar18 false)
          w page_token = Running w1 (Some "T").
Proof.
  rewrite delete_events_from_S. cbv zeta.
  change (svc_list _ _ _) with (Ok (mk_Page [Sample.E1] (Some "T"))).
  cbv beta iota.
  change (items _) with [Sample.E1].
  rewrite process_items_cons, process_event_plain by reflexivity.
  assert (_event_is_passed (Sample.sweeper Sample.svc_endless Sample.mar18 false)
            Sample.E1 = Ok true) as -> by (vm_compute; reflexivity).
  cbn [mbind result_bind].
  match goal with
  | |- context [_delete_event ?s ?w0 Sample.E1] =>
      destruct (decide (id_ Sample.E1 ∈ deleted_events w0)) as [Hold|Hnew];
      [rewrite (_delete_event_skip s w0 _ Hold)
      |rewrite (_delete_event_attempt s w0 _ Hnew);
       assert (_get_datetime Sample.E1 key_start
               = Ok (mk_datetime 2017 3 10 9 0 0 0)) as ->
         by (vm_compute; reflexivity)]
  end; cbn; eauto.
Qed.

(** The listing of [Sample.svc_endless] returns a token with every page: the
    loop is still running after any number of iterations. *)
Example endless_listing_never_ends fuel w page_token :
  ∃ w', delete_events_from (S fuel)
          (Sample.sweeper Sample.svc_endless Sample.mar18 false) w page_token
        = Running w' (Some "T").
Proof.
  revert w page_token. induction fuel as [|fuel IH]; intros w page_token.
  - apply endless_listing_step.
  - change (S (S fuel)) with (1 + S fuel). rewrite delete_events_from_more.
    destruct (endless_listing_step w page_token) as [w1 ->]. apply IH.
Qed.

(** ** One successful deletion per identifier *)

Lemma ok_deletes_app event_id cs cs' :
  ok_deletes event_id (cs ++ cs') = ok_deletes event_id cs + ok_deletes event_id cs'.
Proof. unfold ok_deletes. rewrite List.filter_app, length_app. reflexivity. Qed.

Lemma record_deleted_once w c :
  is_delete c = false → deleted_once w → deleted_once (record_call c w).
Proof.
  intros Hc Hw event_id. cbn [calls deleted_events record_call]. rewrite ok_deletes_app.
  replace (ok_deletes event_id [c]) with 0; [rewrite Nat.add_0_r; apply Hw|].
  destruct c; try reflexivity. discriminate.
Qed.

Lemma _delete_event_deleted_once self w event w' :
  deleted_once w → _delete_event self w event = Ok w' → deleted_once w'.
Proof.
  intros Hw.
  destruct (decide (id_ event ∈ deleted_events w)) as [Hold|Hnew].
  { rewrite (_delete_event_skip _ _ _ Hold). intros [= <-]. exact Hw. }
  rewrite (_delete_event_attempt _ _ _ Hnew).
  destruct (_get_datetime event key_start) as [d|]; [|discriminate].
  cbn. intros [= <-] event_id. cbn [deleted_events calls note_attempt print].
  destruct (Hw event_id) as [Hle Hin].
  assert (event_id = id_ event → ok_deletes event_id (calls w) = 0) as Hzero.
  { intros ->. destruct (ok_deletes (id_ event) (calls w)) as [|n] eqn:E;
      [reflexivity|]. destruct Hnew. apply (Hw (id_ event)). lia. }
  unfold attempt_delete. destruct (confirm_delete self);
    cbn [fst snd deleted_events calls add_deleted record_call print sleep].
  - destruct (svc_delete _ _ _) as [u|[status msg| | | |]];
      try destruct (status =? 410);
      cbn [fst snd deleted_events calls add_deleted record_call print sleep];
      rewrite ok_deletes_app;
      try (change (ok_deletes event_id [ApiDelete _ _ _ (Raise _)]) with 0;
           rewrite Nat.add_0_r; split; [exact Hle|exact Hin]).
    unfold ok_deletes at 2 4. simpl.
    destruct (string_dec (id_ event) event_id) as [<-|Hne]; simpl.
    + rewrite (Hzero eq_refl). split; [lia|]. intros _. set_solver.
    + rewrite Nat.add_0_r. split; [exact Hle|]. intros H. set_solver.
  - split; [exact Hle|]. intros H. set_solver.
Qed.

(** X19. Along a sweep a given identifier is deleted at the service at most once:
    a delete call that succeeded records the identifier, and a recorded
    identifier is never sent again. *)
Lemma successful_delete_at_most_once fuel self event_id :
  match delete_events fuel self init_world with
  | Finished w' | Running w' _ => ok_deletes event_id (calls w') ≤ 1
  | Aborted _ => True
  end.
Proof.
  pose proof (delete_events_from_preserves self deleted_once
                record_deleted_once (_delete_event_deleted_once self)
                fuel init_world None) as H.
  unfold delete_events.
  destruct (delete_events_from fuel self init_world None); [|exact I|];
    apply H; intros i; split; cbn; try lia.
Qed.

(** ** A recurring instance and its series *)

(** C8 as stated fails: nothing catches what the step on the series
    raises.  The listed instance is classified passed; when its series cannot
    be fetched, and also when the series is fetched, classified passed and
    deleted but has no start to print on its status line, the exception
    leaves the loop body and the instance is never attempted. *)
Lemma instance_lost_with_its_series :
  ¬ instance_deleted_anyway (Sample.sweeper Sample.svc_orphan Sample.mar18 true)
      init_world Sample.E2 ∧
  ¬ instance_deleted_anyway (Sample.sweeper Sample.svc_no_start Sample.mar18 true)
      init_world Sample.E2.
Proof.
  split; intros H; destruct (H "R" eq_refl eq_refl) as (w' & Hw' & _);
    vm_compute in Hw'; discriminate.
Qed.

(** C8, amended. For a listed event that carries a [recurringEventId], the
    loop body fetches the series by that identifier.  When the fetch returns
    the series, the classification of the series returns and the start of
    the series can be read: if the series is classified passed the body
    calls [_delete_event] on it, which makes an attempt (and, in confirmed
    mode, a delete call) unless the identifier is already recorded; whatever
    that attempt gave (DELETED, ALREADY DELETED or FAILED), and also when the
    series is not passed, the body then classifies the instance itself and
    calls [_delete_event] on it when it is passed. *)
Theorem recurring_instance_processing (self : EventDeletion) (w : World)
    (event rec_event : Event) (rid : string) (parent_passed : bool)
    (event_date : datetime) :
  recurringEventId event = Some rid →
  svc_get (service self) (calls w) rid = Ok rec_event →
  _event_is_passed self rec_event = Ok parent_passed →
  start_instant rec_event = Some event_date →
  let w0 := record_call (ApiGet "primary" rid (Ok rec_event)) w in
  ∃ w1,
    (if parent_passed then _delete_event self w0 rec_event else Ok w0) = Ok w1 ∧
    (parent_passed = false → w1 = w0) ∧
    (parent_passed = true → id_ rec_event ∉ deleted_events w →
       ∃ res,
         res ∈ results ∧
         attempts w1 = attempts w ++ [(id_ rec_event, res)] ∧
         (confirm_delete self = true →
            calls w1 = calls w0 ++
              [ApiDelete "primary" (id_ rec_event) "none"
                 (svc_delete (service self) (calls w0) (id_ rec_event))])) ∧
    process_event self w event =
      (passed ← _event_is_passed self event;
       if passed : bool then _delete_event self w1 event else Ok w1).
Proof.
  intros Hrid Hget Hpp Hstart w0.
  assert (∀ w1, (if parent_passed then _delete_event self w0 rec_event else Ok w0) = Ok w1 →
            process_event self w event =
            (passed ← _event_is_passed self event;
             if passed : bool then _delete_event self w1 event else Ok w1)) as Hbody.
  { intros w1 Hw1. unfold process_event, _is_recurrent. rewrite Hrid, Hget.
    cbn. rewrite Hpp. cbn. fold w0. rewrite Hw1. reflexivity. }
  destruct parent_passed.
  - destruct (decide (id_ rec_event ∈ deleted_events w0)) as [Hold|Hnew].
    + exists w0. rewrite (_delete_event_skip _ _ _ Hold).
      split; [reflexivity|]. split; [reflexivity|].
      split; [intros _ Hw; destruct (Hw Hold)|].
      apply Hbody, _delete_event_skip, Hold.
    + pose proof (_delete_event_attempt self w0 rec_event Hnew) as Hd.
      apply _get_datetime_start_ok in Hstart. rewrite Hstart in Hd. cbn in Hd.
      eexists. split; [exact Hd|]. split; [discriminate|].
      split; [|apply Hbody, Hd].
      intros _ _. eexists. split; [apply attempt_delete_result|].
      split; [cbn [attempts note_attempt print];
              rewrite attempt_delete_attempts; reflexivity|].
      intros Hc. cbn [calls note_attempt print].
      unfold attempt_delete. rewrite Hc. simpl.
      destruct (svc_delete _ _ _) as [u|[status msg| | | |]]; simpl;
        try destruct (status =? 410); reflexivity.
  - exists w0. split; [reflexivity|]. split; [reflexivity|].
    split; [discriminate|]. apply Hbody. reflexivity.
Qed.

Lemma recurring_instance_processing_witness :
  ∃ w1,
    _delete_event (Sample.sweeper Sample.svc_gone Sample.mar18 true)
      (record_call (ApiGet "primary" "R" (Ok Sample.ER)) init_world) Sample.ER
      = Ok w1 ∧
    process_event (Sample.sweeper Sample.svc_gone Sample.mar18 true) init_world
      Sample.E2
      = _delete_event (Sample.sweeper Sample.svc_gone Sample.mar18 true) w1 Sample.E2.
Proof.
  destruct (recurring_instance_processing
              (Sample.sweeper Sample.svc_gone Sample.mar18 true) init_world
              Sample.E2 Sample.ER "R" true (mk_datetime 2017 1 2 9 0 0 0)
              eq_refl eq_refl eq_refl eq_refl)
    as (w1 & Hw1 & _ & _ & Hbody).
  exists w1. split; [exact Hw1|]. rewrite Hbody. reflexivity.
Defined.

(** ** Simulated and confirmed sweeps *)

Lemma without_deletes_app cs cs' :
  without_deletes (cs ++ cs') = without_deletes cs ++ without_deletes cs'.
Proof. apply List.filter_app. Qed.

Lemma without_deletes_no_delete cs :
  List.filter is_delete (without_deletes cs) = [].
Proof.
  induction cs as [|c cs IH]; [reflexivity|].
  unfold without_deletes in *. simpl.
  destruct (is_delete c) eqn:E; simpl; [exact IH|]. rewrite E. exact IH.
Qed.

Lemma mirrors_no_delete_calls ws wc : mirrors ws wc → no_delete_calls ws.
Proof.
  intros (_ & _ & _ & Hcalls). unfold no_delete_calls. rewrite Hcalls.
  apply without_deletes_no_delete.
Qed.

Lemma mirrors_record ws wc c :
  is_delete c = false → mirrors ws wc → mirrors (record_call c ws) (record_call c wc).
Proof.
  intros Hc (Hset & Hout & Hatt & Hcalls). repeat split; cbn; try assumption.
  rewrite without_deletes_app, Hcalls. unfold without_deletes at 3. simpl.
  rewrite Hc. reflexivity.
Qed.

Section Mirror.

Variable svc : Service.
Variables tmin tmax : datetime.
Hypothesis Hsucceed : deletes_succeed svc.
Hypothesis Hignore : ignores_deletes svc.

Local Notation sim := (simulated svc tmin tmax).
Local Notation conf := (confirmed svc tmin tmax).

Lemma mirrors_delete_event ws wc event :
  mirrors ws wc →
  mirrors_result (_delete_event sim ws event) (_delete_event conf wc event).
Proof.
  intros Hm. pose proof Hm as (Hset & Hout & Hatt & Hcalls).
  destruct (decide (id_ event ∈ deleted_events ws)) as [Hold|Hnew].
  - rewrite (_delete_event_skip sim _ _ Hold).
    rewrite Hset in Hold. rewrite (_delete_event_skip conf _ _ Hold). exact Hm.
  - rewrite (_delete_event_attempt sim _ _ Hnew).
    rewrite Hset in Hnew. rewrite (_delete_event_attempt conf _ _ Hnew).
    rewrite (attempt_delete_simulation sim ws _ eq_refl).
    rewrite (attempt_delete_ok conf wc _ tt eq_refl (Hsucceed _ _)).
    destruct (_get_datetime event key_start) as [d|e]; cbn; [|reflexivity].
    repeat split; cbn; try congruence.
    rewrite without_deletes_app, Hcalls. unfold without_deletes at 2. simpl.
    rewrite app_nil_r. reflexivity.
Qed.

Lemma mirrors_classify_delete ws wc event :
  mirrors ws wc →
  mirrors_result
    (passed ← _event_is_passed sim event;
     if passed : bool then _delete_event sim ws event else Ok ws)
    (passed ← _event_is_passed conf event;
     if passed : bool then _delete_event conf wc event else Ok wc).
Proof.
  intros Hm. change (_event_is_passed conf event) with (_event_is_passed sim event).
  destruct (_event_is_passed sim event) as [[|]|e]; cbn;
    [apply mirrors_delete_event, Hm|exact Hm|reflexivity].
Qed.

Lemma mirrors_process_event ws wc event :
  mirrors ws wc →
  mirrors_result (process_event sim ws event) (process_event conf wc event).
Proof.
  intros Hm. unfold process_event.
  destruct (_is_recurrent event); [|cbn; apply mirrors_classify_delete, Hm].
  destruct (recurringEventId event) as [rid|]; [|reflexivity].
  change (service sim) with svc. change (service conf) with svc.
  assert (svc_get svc (calls ws) rid = svc_get svc (calls wc) rid) as Hget.
  { destruct Hm as (_ & _ & _ & ->). symmetry. apply Hignore. }
  rewrite Hget.
  destruct (svc_get svc (calls wc) rid) as [rec_event|e]; cbn; [|reflexivity].
  pose proof (mirrors_classify_delete _ _ rec_event
                (mirrors_record _ _ (ApiGet "primary" rid (Ok rec_event)) eq_refl Hm))
    as Hparent.
  change (_event_is_passed conf rec_event) with (_event_is_passed sim rec_event)
    in Hparent |- *.
  destruct (_event_is_passed sim rec_event) as [pp|e]; cbn in Hparent |- *;
    [|reflexivity].
  destruct (if pp then _delete_event sim _ _ else _) as [ws1|e1];
    destruct (if pp then _delete_event conf _ _ else _) as [wc1|e2];
    cbn in Hparent |- *; try contradiction; [|exact Hparent].
  apply mirrors_classify_delete, Hparent.
Qed.

Lemma mirrors_process_items ws wc events :
  mirrors ws wc →
  mirrors_result (process_items sim ws events) (process_items conf wc events).
Proof.
  revert ws wc. induction events as [|event rest IH]; intros ws wc Hm.
  - exact Hm.
  - rewrite !process_items_cons.
    pose proof (mirrors_process_event _ _ event Hm) as H1.
    destruct (process_event sim ws event) as [ws1|e1];
      destruct (process_event conf wc event) as [wc1|e2];
      cbn in H1 |- *; try contradiction; [|exact H1].
    apply IH, H1.
Qed.

Lemma mirrors_delete_events_from fuel ws wc page_token :
  mirrors ws wc →
  mirrors_run (delete_events_from fuel sim ws page_token)
              (delete_events_from fuel conf wc page_token).
Proof.
  revert ws wc page_token. induction fuel as [|fuel IH]; intros ws wc page_token Hm.
  - split; [reflexivity|exact Hm].
  - rewrite !delete_events_from_S. cbv zeta.
    change (list_request conf page_token) with (list_request sim page_token).
    change (service sim) with svc. change (service conf) with svc.
    assert (svc_list svc (calls ws) (list_request sim page_token)
            = svc_list svc (calls wc) (list_request sim page_token)) as Hlist.
    { destruct Hm as (_ & _ & _ & ->). symmetry. apply Hignore. }
    rewrite Hlist.
    destruct (svc_list svc (calls wc) _) as [events|e]; [|reflexivity].
    pose proof (mirrors_process_items _ _ (items events)
                  (mirrors_record _ _ (ApiList (list_request sim page_token) (Ok events))
                     eq_refl Hm)) as Hitems.
    destruct (process_items sim _ _) as [ws1|e1];
      destruct (process_items conf _ _) as [wc1|e2];
      cbn in Hitems |- *; try contradiction; [|exact Hitems].
    destruct (token_falsy (nextPageToken events)); [exact Hitems|apply IH, Hitems].
Qed.

End Mirror.

Lemma mirrors_init : mirrors init_world init_world.
Proof. repeat split. Qed.

Lemma simulated_attempt_no_delete_call self w event w' :
  confirm_delete self = false →
  no_delete_calls w → _delete_event self w event = Ok w' → no_delete_calls w'.
Proof.
  intros Hsim Hw.
  destruct (decide (id_ event ∈ deleted_events w)) as [Hold|Hnew].
  - rewrite (_delete_event_skip _ _ _ Hold). intros [= <-]. exact Hw.
  - rewrite (_delete_event_attempt _ _ _ Hnew), (attempt_delete_simulation _ _ _ Hsim).
    destruct (_get_datetime event key_start); [|discriminate].
    cbn. intros [= <-]. exact Hw.
Qed.

Lemma record_no_delete_call w c :
  is_delete c = false → no_delete_calls w → no_delete_calls (record_call c w).
Proof.
  unfold no_delete_calls. intros Hc Hw. cbn.
  rewrite List.filter_app, Hw. simpl. rewrite Hc. reflexivity.
Qed.

(** In simulation mode no delete call is made, whatever the service
    answers. *)
Lemma simulation_makes_no_delete_call fuel self :
  confirm_delete self = false →
  match delete_events fuel self init_world with
  | Finished w' | Running w' _ => no_delete_calls w'
  | Aborted _ => True
  end.
Proof.
  intros Hsim.
  apply (delete_events_from_preserves self no_delete_calls
           record_no_delete_call
           (λ w ev w' Hw, simulated_attempt_no_delete_call self w ev w' Hsim Hw)).
  reflexivity.
Qed.

(** C6 as stated fails: once the series [R] is deleted the service answers
    410 for its instance [e2]; the confirmed sweep prints ALREADY DELETED and
    counts two events, the simulated one prints DELETED and counts three. *)
Lemma simulation_differs_from_confirmed :
  ¬ simulation_same_as_confirmed Sample.svc_gone Sample.y2000 Sample.mar18 2.
Proof.
  intros H.
  destruct (H (Run.final (delete_events 2
                 (simulated Sample.svc_gone Sample.y2000 Sample.mar18) init_world))
              (Run.final (delete_events 2
                 (confirmed Sample.svc_gone Sample.y2000 Sample.mar18) init_world)))
    as (_ & Hout & _); [vm_compute; reflexivity|vm_compute; reflexivity|].
  vm_compute in Hout. discriminate Hout.
Qed.

(** C6, amended. In simulation mode a sweep makes no delete call.  Its
    classification, its console output and its Deleted-Set (hence the final
    count) are those of the confirmed sweep when, in the confirmed sweep,
    every delete call succeeds and the service lists and returns the same
    events whatever was deleted. *)
Theorem simulation_mirrors_successful_run (svc : Service) (tmin tmax : datetime)
    (fuel : nat) :
  match delete_events fuel (simulated svc tmin tmax) init_world with
  | Finished ws | Running ws _ => no_delete_calls ws
  | Aborted _ => True
  end ∧
  (deletes_succeed svc → ignores_deletes svc →
   match delete_events fuel (simulated svc tmin tmax) init_world,
         delete_events fuel (confirmed svc tmin tmax) init_world with
   | Finished ws, Finished wc =>
       stdout ws = stdout wc ∧ attempts ws = attempts wc ∧
       deleted_events ws = deleted_events wc ∧
       reported_count ws = reported_count wc
   | Running ws tok, Running wc tok' =>
       tok = tok' ∧
       stdout ws = stdout wc ∧ attempts ws = attempts wc ∧
       deleted_events ws = deleted_events wc
   | Aborted e, Aborted e' => e = e'
   | _, _ => False
   end).
Proof.
  split.
  - apply simulation_makes_no_delete_call. reflexivity.
  - intros Hsucceed Hignore.
    pose proof (mirrors_delete_events_from svc tmin tmax Hsucceed Hignore fuel
                  init_world init_world None mirrors_init) as H.
    unfold delete_events.
    destruct (delete_events_from fuel (simulated svc tmin tmax) init_world None)
      as [ws|e|ws tok];
      destruct (delete_events_from fuel (confirmed svc tmin tmax) init_world None)
        as [wc|e'|wc tok'];
      cbn in H; try contradiction; try exact H.
    + destruct H as (Hset & Hout & Hatt & _).
      unfold reported_count. rewrite Hset. auto.
    + destruct H as (-> & Hset & Hout & Hatt & _). auto.
Qed.

Example svc_ok_succeeds : deletes_succeed Sample.svc_ok.
Proof. intros history event_id. reflexivity. Qed.

Example svc_ok_ignores_deletes : ignores_deletes Sample.svc_ok.
Proof. split; intros; reflexivity. Qed.

Lemma simulation_mirrors_successful_run_witness :
  ∃ ws wc,
    delete_events 2 (simulated Sample.svc_ok Sample.y2000 Sample.mar18) init_world
      = Finished ws ∧
    delete_events 2 (confirmed Sample.svc_ok Sample.y2000 Sample.mar18) init_world
      = Finished wc ∧
    no_delete_calls ws ∧ stdout ws = stdout wc ∧ reported_count ws = reported_count wc.
Proof.
  pose proof (simulation_mirrors_successful_run Sample.svc_ok Sample.y2000
                Sample.mar18 2) as H.
  assert (delete_events 2 (simulated Sample.svc_ok Sample.y2000 Sample.mar18) init_world
          = Finished (Run.final (delete_events 2
               (simulated Sample.svc_ok Sample.y2000 Sample.mar18) init_world))) as Es
    by (vm_compute; reflexivity).
  assert (delete_events 2 (confirmed Sample.svc_ok Sample.y2000 Sample.mar18) init_world
          = Finished (Run.final (delete_events 2
               (confirmed Sample.svc_ok Sample.y2000 Sample.mar18) init_world))) as Ec
    by (vm_compute; reflexivity).
  rewrite Es, Ec in H.
  destruct H as [Hnone H].
  destruct (H svc_ok_succeeds svc_ok_ignores_deletes) as (Hout & _ & _ & Hcount).
  eexists _, _. split; [exact Es|]. split; [exact Ec|]. auto.
Defined.

(** ** The end-to-end scenario of the specification

    Page 1 lists the plain event [e1] and the token [T]; page 2 lists [e2],
    an instance of the series [R] that stops before [time_max]. *)

(** Every deletion succeeds: three delete calls, three events counted. *)
Example end_to_end_confirmed :
  ∃ w', delete_events 2 (Sample.sweeper Sample.svc_ok Sample.mar18 true) init_world
        = Finished w' ∧
        attempts w' = [("e1", "DELETED"); ("R", "DELETED"); ("e2", "DELETED")] ∧
        map (λ i, delete_calls i (calls w')) ["e1"; "R"; "e2"] = [1; 1; 1] ∧
        reported_count w' = 3.
Proof.
  eexists. split; [vm_compute; reflexivity|].
  split; [reflexivity|]. split; vm_compute; reflexivity.
Qed.

(** Simulation: same lines, no delete call, three events counted. *)
Example end_to_end_simulated :
  ∃ w', delete_events 2 (Sample.sweeper Sample.svc_ok Sample.mar18 false) init_world
        = Finished w' ∧
        stdout w' = ["DELETED - 2017-03-10 09:00:00 - Dentist";
                     "DELETED - 2017-01-02 09:00:00 - [Recurent event] - Standup";
                     "DELETED - 2017-03-13 09:00:00 - Standup"] ∧
        List.filter is_delete (calls w') = [] ∧
        reported_count w' = 3.
Proof.
  eexists. split; [vm_compute; reflexivity|].
  split; [reflexivity|]. split; vm_compute; reflexivity.
Qed.

(** With a service that answers 410 for the instance of a deleted series, the
    confirmed sweep counts two events. *)
Example end_to_end_series_gone :
  ∃ w', delete_events 2 (Sample.sweeper Sample.svc_gone Sample.mar18 true) init_world
        = Finished w' ∧
        attempts w' = [("e1", "DELETED"); ("R", "DELETED"); ("e2", "ALREADY DELETED")] ∧
        reported_count w' = 2.
Proof.
  eexists. split; [vm_compute; reflexivity|].
  split; [reflexivity|]. vm_compute; reflexivity.
Qed.

(** * The rest of the program: properties *)

Local Open Scope string_scope.
Local Open Scope nat_scope.

(** * Further properties *)

(** ** Formatting and parsing dates *)

Lemma match_groups_step alts gs s m r caps rest :
  first_match alts s = Some (m, r) →
  Re.match_groups gs r = Some (caps, rest) →
  Re.match_groups (alts :: gs) s = Some (m :: caps, rest).
Proof.
  intros Hfirst Hrest. simpl.
  induction alts as [|a more IH]; [discriminate|].
  simpl in Hfirst. destruct (Re.match_seq a s) as [[m' r']|].
  - injection Hfirst as -> ->. rewrite Hrest. reflexivity.
  - apply IH, Hfirst.
Qed.

Lemma digit_char_ascii n : nat_of_ascii (PyStr.digit_char n) < 128.
Proof.
  unfold PyStr.digit_char.
  pose proof (Nat.mod_upper_bound n 10 ltac:(lia)) as Hlt.
  destruct (n mod 10) as [|[|[|[|[|[|[|[|[|[|k]]]]]]]]]];
    first [vm_compute; lia | lia].
Qed.

Lemma is_digit_digit_char n :
  PyStr.is_digit (String (PyStr.digit_char n) EmptyString) = true.
Proof.
  unfold PyStr.digit_char.
  pose proof (Nat.mod_upper_bound n 10 ltac:(lia)) as Hlt.
  destruct (n mod 10) as [|[|[|[|[|[|[|[|[|[|k]]]]]]]]]]; try reflexivity. lia.
Qed.

Lemma next_digit_char n s :
  Utf8.next (String (PyStr.digit_char n) s)
  = Some (String (PyStr.digit_char n) EmptyString, s).
Proof. apply next_ascii, digit_char_ascii. Qed.

(** One step of the matcher on a digit that [pad_dec] wrote. *)
Lemma match_seq_digit_char ks n s :
  Re.match_seq (Re.Digit :: ks) (String (PyStr.digit_char n) s) =
  match Re.match_seq ks s with
  | Some (m, r) => Some (String (PyStr.digit_char n) m, r)
  | None => None
  end.
Proof.
  rewrite match_seq_cons, next_digit_char.
  cbn [Re.accepts]. rewrite is_digit_digit_char. reflexivity.
Qed.

Lemma take_digit_char k n s :
  PyStr.take (S k) (String (PyStr.digit_char n) s)
  = String (PyStr.digit_char n) (PyStr.take k s).
Proof. cbn [PyStr.take]. rewrite next_digit_char. reflexivity. Qed.

Lemma take_ascii k a s :
  nat_of_ascii a < 128 →
  PyStr.take (S k) (String a s) = String a (PyStr.take k s).
Proof. intros H. cbn [PyStr.take]. rewrite (next_ascii _ _ H). reflexivity. Qed.

Lemma pad_dec_4 n :
  PyStr.pad_dec 4 n =
  String (PyStr.digit_char (n / 10 / 10 / 10))
    (String (PyStr.digit_char (n / 10 / 10))
       (String (PyStr.digit_char (n / 10))
          (String (PyStr.digit_char n) EmptyString))).
Proof. reflexivity. Qed.

Lemma first_match_year y rest :
  first_match (Datetime.directive_regex Datetime.dY) (PyStr.pad_dec 4 y ++ rest)
  = Some (PyStr.pad_dec 4 y, rest).
Proof.
  rewrite pad_dec_4. cbn [Datetime.directive_regex first_match].
  rewrite !app_String, !match_seq_digit_char. reflexivity.
Qed.

Lemma first_match_literal c rest :
  nat_of_ascii c < 128 →
  first_match (Datetime.item_regex (Datetime.FLit c)) (String c EmptyString ++ rest)
  = Some (String c EmptyString, rest).
Proof.
  intros Hc. rewrite app_String. cbn [Datetime.item_regex first_match].
  rewrite match_seq_cons, (next_ascii _ _ Hc). cbn [Re.accepts Re.match_seq].
  apply Nat.ltb_lt in Hc. rewrite Hc.
  destruct (ascii_dec (Re.lower c) (Re.lower c)); [reflexivity|congruence].
Qed.

Tactic Notation "by_cases" ident(n) integer(k) :=
  do k (destruct n as [|n]; [first [reflexivity | lia]|]); lia.

Lemma first_match_month m rest :
  1 ≤ m ≤ 12 →
  first_match (Datetime.directive_regex Datetime.dm) (PyStr.pad_dec 2 m ++ rest)
  = Some (PyStr.pad_dec 2 m, rest).
Proof. intros H. by_cases m 13. Qed.

Lemma first_match_day d rest :
  1 ≤ d ≤ 31 →
  first_match (Datetime.directive_regex Datetime.dd) (PyStr.pad_dec 2 d ++ rest)
  = Some (PyStr.pad_dec 2 d, rest).
Proof. intros H. by_cases d 32. Qed.

Lemma first_match_hour h rest :
  h ≤ 23 →
  first_match (Datetime.directive_regex Datetime.dH) (PyStr.pad_dec 2 h ++ rest)
  = Some (PyStr.pad_dec 2 h, rest).
Proof. intros H. by_cases h 24. Qed.

Lemma first_match_minute m rest :
  m ≤ 59 →
  first_match (Datetime.directive_regex Datetime.dM) (PyStr.pad_dec 2 m ++ rest)
  = Some (PyStr.pad_dec 2 m, rest).
Proof. intros H. by_cases m 60. Qed.

Lemma first_match_second s rest :
  s ≤ 59 →
  first_match (Datetime.directive_regex Datetime.dS) (PyStr.pad_dec 2 s ++ rest)
  = Some (PyStr.pad_dec 2 s, rest).
Proof. intros H. by_cases s 60. Qed.

Lemma int_pad_dec_2 n : n < 100 → PyStr.int (PyStr.pad_dec 2 n) = n.
Proof.
  intros Hn.
  assert (forallb (λ k, PyStr.int (PyStr.pad_dec 2 k) =? k) (seq 0 100) = true) as Hall
    by (vm_compute; reflexivity).
  rewrite forallb_forall in Hall. apply Nat.eqb_eq, Hall, in_seq. lia.
Qed.

Lemma int_pad_dec_4 n : n < 100 * 100 → PyStr.int (PyStr.pad_dec 4 n) = n.
Proof.
  intros Hn.
  assert (forallb (λ k, PyStr.int (PyStr.pad_dec 4 k) =? k) (seq 0 (100 * 100)) = true)
    as Hall by (vm_compute; reflexivity).
  rewrite forallb_forall in Hall. apply Nat.eqb_eq, Hall, in_seq. lia.
Qed.

Lemma days_in_month_le y m : Datetime.days_in_month y m ≤ 31.
Proof.
  unfold Datetime.days_in_month.
  do 13 (destruct m as [|m]; [try lia; destruct (Datetime.is_leap y); lia|]). lia.
Qed.

Lemma valid_ranges d :
  Datetime.valid d = true →
  1 ≤ year d < 100 * 100 ∧ 1 ≤ month d ≤ 12 ∧
  1 ≤ day d ≤ Datetime.days_in_month (year d) (month d) ∧
  hour d ≤ 23 ∧ minute d ≤ 59 ∧ second d ≤ 59.
Proof.
  unfold Datetime.valid. rewrite !andb_true_iff, !Nat.leb_le.
  assert (9999 = 99 * 100 + 99) as -> by (vm_compute; reflexivity). lia.
Qed.

Lemma pad_dec_2 n :
  PyStr.pad_dec 2 n =
  String (PyStr.digit_char (n / 10)) (String (PyStr.digit_char n) EmptyString).
Proof. reflexivity. Qed.

Ltac take_steps :=
  repeat first [rewrite take_digit_char | rewrite take_ascii by (vm_compute; lia)].

Lemma take_until_text d :
  PyStr.take 13 (until_text d) =
  PyStr.pad_dec 4 (year d) ++ PyStr.pad_dec 2 (month d) ++
  PyStr.pad_dec 2 (day d) ++ "T" ++ PyStr.pad_dec 2 (hour d) ++
  PyStr.pad_dec 2 (minute d) ++ EmptyString.
Proof.
  unfold until_text. rewrite pad_dec_4, !pad_dec_2.
  cbv [String.append]. take_steps. reflexivity.
Qed.

Lemma take_isoformat d suffix :
  PyStr.take 19 (Datetime.isoformat d ++ suffix) =
  PyStr.pad_dec 4 (year d) ++ "-" ++ PyStr.pad_dec 2 (month d) ++ "-" ++
  PyStr.pad_dec 2 (day d) ++ "T" ++ PyStr.pad_dec 2 (hour d) ++ ":" ++
  PyStr.pad_dec 2 (minute d) ++ ":" ++ PyStr.pad_dec 2 (second d) ++ EmptyString.
Proof.
  unfold Datetime.isoformat, Datetime.format. rewrite pad_dec_4, !pad_dec_2.
  cbv [String.append]. take_steps. reflexivity.
Qed.

Lemma until_text_form d : until_form (until_text d) = true.
Proof.
  apply until_form_iff.
  unfold until_text. rewrite pad_dec_4, !pad_dec_2.
  cbv [String.append Re.until_group Re.rep repeat List.app].
  rewrite !match_seq_digit_char.
  rewrite match_seq_cons, next_ascii by (vm_compute; lia). cbn [Re.accepts].
  change ((nat_of_ascii "T" <? 128) && (if ascii_dec "T" "T" then true else false))
    with true. cbv iota.
  rewrite !match_seq_digit_char.
  reflexivity.
Qed.

Local Opaque PyStr.pad_dec.

Lemma valid_to_second d : Datetime.valid d = true → Datetime.valid (to_second d) = true.
Proof.
  unfold Datetime.valid, to_second. cbn [year month day hour minute second microsecond].
  rewrite !andb_true_iff. intros H. repeat split; first [apply H | reflexivity].
Qed.

Lemma valid_to_minute d : Datetime.valid d = true → Datetime.valid (to_minute d) = true.
Proof.
  unfold Datetime.valid, to_minute. cbn [year month day hour minute second microsecond].
  rewrite !andb_true_iff. intros H. repeat split; first [apply H | reflexivity].
Qed.

Lemma valid_to_day d : Datetime.valid d = true → Datetime.valid (to_day d) = true.
Proof.
  unfold Datetime.valid, to_day. cbn [year month day hour minute second microsecond].
  rewrite !andb_true_iff. intros H. repeat split; first [apply H | reflexivity].
Qed.

Ltac next_group lem := eapply match_groups_step; [apply lem; lia|].
Ltac next_literal :=
  eapply match_groups_step; [apply first_match_literal; vm_compute; lia|].
Ltac next_year := eapply match_groups_step; [apply first_match_year|].

(** [strptime] reads back what [isoformat] wrote, up to the second. *)
Lemma strptime_datetime_text d :
  Datetime.valid d = true →
  Datetime.strptime
    (PyStr.pad_dec 4 (year d) ++ "-" ++ PyStr.pad_dec 2 (month d) ++ "-" ++
     PyStr.pad_dec 2 (day d) ++ "T" ++ PyStr.pad_dec 2 (hour d) ++ ":" ++
     PyStr.pad_dec 2 (minute d) ++ ":" ++ PyStr.pad_dec 2 (second d) ++ EmptyString)
    Datetime.fmt_datetime
  = Some (to_second d).
Proof.
  intros Hvalid. pose proof (valid_ranges d Hvalid) as Hr.
  unfold Datetime.strptime.
  match goal with
  | |- context [Re.match_groups ?gs ?s] =>
      assert (Re.match_groups gs s =
              Some ([PyStr.pad_dec 4 (year d); "-"; PyStr.pad_dec 2 (month d); "-";
                       PyStr.pad_dec 2 (day d); "T"; PyStr.pad_dec 2 (hour d); ":";
                       PyStr.pad_dec 2 (minute d); ":"; PyStr.pad_dec 2 (second d)],
                      EmptyString)) as Hm
  end.
  { pose proof (days_in_month_le (year d) (month d)).
    unfold Datetime.fmt_datetime. cbn [map].
    next_year. next_literal. next_group first_match_month. next_literal.
    next_group first_match_day. next_literal. next_group first_match_hour.
    next_literal. next_group first_match_minute. next_literal.
    next_group first_match_second. reflexivity. }
  rewrite Hm.
  cbn [Datetime.fill Datetime.fmt_datetime Datetime.set_field Datetime.epoch
         year month day hour minute second microsecond].
    rewrite int_pad_dec_4, !int_pad_dec_2 by
      (pose proof (days_in_month_le (year d) (month d)); lia).
    fold (to_second d). rewrite (valid_to_second d Hvalid). reflexivity.
Qed.

(** The all-day form. *)
Lemma strptime_date_text d :
  Datetime.valid d = true →
  Datetime.strptime (date_text d) Datetime.fmt_date = Some (to_day d).
Proof.
  intros Hvalid. pose proof (valid_ranges d Hvalid) as Hr.
  change (date_text d) with
    (PyStr.pad_dec 4 (year d) ++ "-" ++ PyStr.pad_dec 2 (month d) ++ "-" ++
     PyStr.pad_dec 2 (day d) ++ EmptyString).
  unfold Datetime.strptime.
  match goal with
  | |- context [Re.match_groups ?gs ?s] =>
      assert (Re.match_groups gs s =
              Some ([PyStr.pad_dec 4 (year d); "-"; PyStr.pad_dec 2 (month d); "-";
                       PyStr.pad_dec 2 (day d)], EmptyString)) as Hm
  end.
  { pose proof (days_in_month_le (year d) (month d)).
    unfold Datetime.fmt_date. cbn [map].
    next_year. next_literal. next_group first_match_month. next_literal.
    next_group first_match_day. reflexivity. }
  rewrite Hm.
  cbn [Datetime.fill Datetime.fmt_date Datetime.set_field Datetime.epoch
         year month day hour minute second microsecond].
    rewrite int_pad_dec_4, !int_pad_dec_2 by
      (pose proof (days_in_month_le (year d) (month d)); lia).
    fold (to_day d). rewrite (valid_to_day d Hvalid). reflexivity.
Qed.

(** The first 13 characters of the RFC 5545 form. *)
Lemma strptime_until_text d :
  Datetime.valid d = true →
  Datetime.strptime (PyStr.take 13 (until_text d)) Datetime.fmt_until
  = Some (to_minute d).
Proof.
  intros Hvalid. pose proof (valid_ranges d Hvalid) as Hr.
  rewrite take_until_text.
  unfold Datetime.strptime.
  match goal with
  | |- context [Re.match_groups ?gs ?s] =>
      assert (Re.match_groups gs s =
              Some ([PyStr.pad_dec 4 (year d); PyStr.pad_dec 2 (month d);
                       PyStr.pad_dec 2 (day d); "T"; PyStr.pad_dec 2 (hour d);
                       PyStr.pad_dec 2 (minute d)], EmptyString)) as Hm
  end.
  { pose proof (days_in_month_le (year d) (month d)).
    unfold Datetime.fmt_until. cbn [map].
    next_year. next_group first_match_month. next_group first_match_day.
    next_literal. next_group first_match_hour. next_group first_match_minute.
    reflexivity. }
  rewrite Hm.
  cbn [Datetime.fill Datetime.fmt_until Datetime.set_field Datetime.epoch
         year month day hour minute second microsecond].
    rewrite int_pad_dec_4, !int_pad_dec_2 by
      (pose proof (days_in_month_le (year d) (month d)); lia).
    fold (to_minute d). rewrite (valid_to_minute d Hvalid). reflexivity.
Qed.

Local Transparent PyStr.pad_dec.

(** X1. [_get_datetime] reads a [dateTime] written in the RFC 3339 layout of
    [isoformat] back to the second: the slice of line 123 keeps the first 19
    characters, so a fraction of a second and the UTC offset that follow are
    ignored. *)
Theorem get_datetime_reads_isoformat (event : Event) (key : time_key)
    (d : datetime) (suffix : string) :
  Datetime.valid d = true →
  dateTime (event_item event key) = Some (Datetime.isoformat d ++ suffix) →
  _get_datetime event key = Ok (to_second d).
Proof.
  intros Hvalid Hdt. unfold _get_datetime, strptime. rewrite Hdt.
  rewrite take_isoformat, (strptime_datetime_text d Hvalid). reflexivity.
Qed.

Lemma get_datetime_reads_isoformat_witness :
  _get_datetime Sample.E1 key_end = Ok (mk_datetime 2017 3 10 10 0 0 0).
Proof.
  apply (get_datetime_reads_isoformat Sample.E1 key_end
           (mk_datetime 2017 3 10 10 0 0 0) "+01:00"); reflexivity.
Defined.

(** X2. Without a [dateTime], [_get_datetime] reads the all-day [date]
    YYYY-MM-DD as midnight of that day; without either it raises
    [TypeError]. *)
Theorem get_datetime_reads_date (event : Event) (key : time_key) (d : datetime) :
  dateTime (event_item event key) = None →
  (Datetime.valid d = true →
   date (event_item event key) = Some (date_text d) →
   _get_datetime event key = Ok (to_day d)) ∧
  (date (event_item event key) = None →
   ∃ msg, _get_datetime event key = Raise (TypeError msg)).
Proof.
  intros Hdt. unfold _get_datetime, strptime. rewrite Hdt. split.
  - intros Hvalid ->. rewrite (strptime_date_text d Hvalid). reflexivity.
  - intros ->. eauto.
Qed.

Lemma get_datetime_reads_date_witness :
  _get_datetime Sample.E3 key_end = Ok (mk_datetime 2017 3 12 0 0 0 0).
Proof.
  apply (get_datetime_reads_date Sample.E3 key_end (mk_datetime 2017 3 12 0 0 0 0)
           eq_refl); reflexivity.
Defined.

(** ** More on the classification *)

(** X3. The seconds of an UNTIL value do not count: a rule whose UNTIL is
    the date-time [d] is read as [d] cut to the minute, so the series is
    classified passed as soon as that minute is before [time_max], even when
    [d] itself is not. *)
Theorem until_is_cut_to_the_minute (self : EventDeletion) (event : Event)
    (rec : string) (rest : list string) (d : datetime) :
  recurrence event = Some (rec :: rest) →
  PyStr.contains "RRULE" rec = true →
  Re.search_until rec = Some (until_text d) →
  Datetime.valid d = true →
  _event_is_passed self event =
    if Datetime.lt (to_minute d) (time_max self) then Ok true
    else scan_recurrence (time_max self) rest.
Proof.
  intros Hrec Hc Hg Hvalid. unfold _event_is_passed. rewrite Hrec.
  rewrite scan_recurrence_cons, Hc, Hg, (strptime_until_text d Hvalid). reflexivity.
Qed.

Lemma until_is_cut_to_the_minute_witness :
  Datetime.lt (mk_datetime 2017 3 17 8 30 59 0) (mk_datetime 2017 3 17 8 30 30 0) = false ∧
  _event_is_passed
    (Sample.sweeper Sample.svc_ok (mk_datetime 2017 3 17 8 30 30 0) false)
    (Sample.series ["RRULE:FREQ=WEEKLY;UNTIL=20170317T083059Z"]) = Ok true.
Proof.
  split; [reflexivity|].
  rewrite (until_is_cut_to_the_minute
             (Sample.sweeper Sample.svc_ok (mk_datetime 2017 3 17 8 30 30 0) false)
             (Sample.series ["RRULE:FREQ=WEEKLY;UNTIL=20170317T083059Z"])
             "RRULE:FREQ=WEEKLY;UNTIL=20170317T083059Z" []
             (mk_datetime 2017 3 17 8 30 59 0) eq_refl eq_refl eq_refl eq_refl).
  reflexivity.
Defined.

Lemma scan_recurrence_later time_max time_max' recs :
  Datetime.lt time_max' time_max = false →
  scan_recurrence time_max recs = Ok true →
  scan_recurrence time_max' recs = Ok true.
Proof.
  intros Hle. induction recs as [|rec recs IH]; [discriminate|].
  rewrite !scan_recurrence_cons.
  destruct (PyStr.contains "RRULE" rec); [|exact IH].
  destruct (Re.search_until rec) as [g|]; [|exact IH].
  destruct (Datetime.strptime _ _) as [until|]; [|discriminate].
  destruct (Datetime.lt until time_max) eqn:Hlt.
  - intros _. apply datetime_lt_false in Hle as [->|Hle]; [rewrite Hlt; reflexivity|].
    rewrite (datetime_lt_trans _ _ _ Hlt Hle). reflexivity.
  - intros H. rewrite (IH H). destruct (Datetime.lt until time_max'); reflexivity.
Qed.

(** X4. Classification is monotone in [time_max]: an event classified passed
    stays passed for every later [time_max] (with [--delete-all] nothing is
    spared that the default window deletes). *)
Theorem passed_stays_passed (self self' : EventDeletion) (event : Event) :
  Datetime.lt (time_max self') (time_max self) = false →
  _event_is_passed self event = Ok true →
  _event_is_passed self' event = Ok true.
Proof.
  intros Hle. unfold _event_is_passed.
  destruct (recurrence event) as [recs|]; [apply scan_recurrence_later, Hle|].
  destruct (_get_datetime event key_end) as [d|]; cbn; [|discriminate].
  intros [= Hlt]. f_equal.
  apply datetime_lt_false in Hle as [->|Hle]; [exact Hlt|].
  exact (datetime_lt_trans _ _ _ Hlt Hle).
Qed.

Lemma passed_stays_passed_witness :
  _event_is_passed (Sample.sweeper Sample.svc_ok (mk_datetime 3000 1 1 0 0 0 0) false)
    Sample.ER = Ok true.
Proof.
  apply (passed_stays_passed (Sample.sweeper Sample.svc_ok Sample.mar18 false));
    reflexivity.
Defined.

(** X5. A rule string that does not contain RRULE (an EXDATE or RDATE line,
    say) is never looked at: a series all of whose rules are such, the series
    with an empty rule list included, is never classified passed and never
    makes [_event_is_passed] raise, whatever UNTIL text the rules carry and
    whatever the end of the event is. *)
Theorem series_without_rrule_never_passed (self : EventDeletion) (event : Event)
    (recs : list string) :
  recurrence event = Some recs →
  Forall (λ rec, PyStr.contains "RRULE" rec = false) recs →
  _event_is_passed self event = Ok false.
Proof.
  intros Hrec Hrecs. unfold _event_is_passed. rewrite Hrec. clear Hrec.
  induction Hrecs as [|rec recs Hc _ IH]; [reflexivity|].
  rewrite scan_recurrence_cons, Hc. exact IH.
Qed.

Lemma series_without_rrule_never_passed_witness :
  _event_is_passed (Sample.sweeper Sample.svc_ok Sample.mar18 false)
    (Sample.series ["EXDATE:20170301T090000Z"; "EXRULE:FREQ=DAILY;UNTIL=20170230T083000Z"])
  = Ok false.
Proof.
  apply (series_without_rrule_never_passed
           (Sample.sweeper Sample.svc_ok Sample.mar18 false)
           (Sample.series
              ["EXDATE:20170301T090000Z"; "EXRULE:FREQ=DAILY;UNTIL=20170230T083000Z"])
           ["EXDATE:20170301T090000Z"; "EXRULE:FREQ=DAILY;UNTIL=20170230T083000Z"]
           eq_refl).
  repeat constructor.
Defined.

(** ** What a sweep does to the service *)

Local Open Scope list_scope.

Lemma known_events_app cs cs' :
  known_events (cs ++ cs') = known_events cs ++ known_events cs'.
Proof.
  induction cs as [|c cs IH]; [reflexivity|].
  destruct c as [req [page|]|cal i [ev|]|cal i su resp]; simpl; rewrite IH;
    try reflexivity.
  rewrite app_assoc. reflexivity.
Qed.

Lemma known_events_extends w w' event :
  extends w w' → event ∈ known_events (calls w) → event ∈ known_events (calls w').
Proof.
  intros [_ (new & -> & _) _ _] H. rewrite known_events_app. set_solver.
Qed.

(** The shape of what [_delete_event] leaves: nothing, or one attempt
    together with, in confirmed mode, one pause and one delete call for the
    identifier. *)
Lemma _delete_event_shape self w event w' :
  _delete_event self w event = Ok w' →
  w' = w ∨
  (id_ event ∉ deleted_events w ∧
   ∃ res new logged,
     attempts w' = attempts w ++ [(id_ event, res)] ∧
     calls w' = calls w ++ new ∧
     sleeps w' = sleeps w + length new ∧
     stdout w' = stdout w ++ logged ∧
     (res = "DELETED" → length logged = 1) ∧
     (if confirm_delete self
      then ∃ resp, new = [ApiDelete "primary" (id_ event) "none" resp] ∧
                   (res = "DELETED" ↔ ∃ u, resp = Ok u)
      else new = [] ∧ res = "DELETED")).
Proof.
  destruct (decide (id_ event ∈ deleted_events w)) as [Hold|Hnew].
  { rewrite (_delete_event_skip _ _ _ Hold). intros [= <-]. left. reflexivity. }
  rewrite (_delete_event_attempt _ _ _ Hnew).
  destruct (_get_datetime event key_start) as [d|]; [|discriminate].
  cbn. intros [= <-]. right. split; [exact Hnew|].
  cbn [attempts calls sleeps stdout note_attempt print].
  rewrite attempt_delete_attempts.
  unfold attempt_delete. destruct (confirm_delete self);
    cbn [fst snd calls sleeps stdout add_deleted record_call print sleep].
  - destruct (svc_delete (service self) (calls w) (id_ event))
      as [u|[status msg| | | |]] eqn:Hresp;
      try destruct (status =? 410);
      cbn [fst snd calls sleeps stdout add_deleted record_call print sleep];
      eexists _, [_], _;
      (split; [reflexivity|]); (split; [reflexivity|]);
      (split; [simpl; lia|]);
      (split; [try rewrite <- app_assoc; reflexivity|]);
      (split; [first [discriminate | reflexivity]|]);
      eexists; (split; [reflexivity|]);
      (split; [first [discriminate | eauto]|intros [? [=]]; try reflexivity]).
  - exists "DELETED", [], [status_line "DELETED" d event].
    rewrite app_nil_r. repeat split; simpl; lia.
Qed.

Section Sweep.

Variable self : EventDeletion.
Variable P : World → Prop.

Hypothesis P_list : ∀ w page_token,
  P w →
  P (record_call
       (ApiList (list_request self page_token)
          (svc_list (service self) (calls w) (list_request self page_token))) w).

Hypothesis P_get : ∀ w rid,
  P w → P (record_call (ApiGet "primary" rid (svc_get (service self) (calls w) rid)) w).

Hypothesis P_delete : ∀ w event w',
  P w →
  event ∈ known_events (calls w) →
  _event_is_passed self event = Ok true →
  _delete_event self w event = Ok w' →
  P w'.

Lemma classify_delete_sweep w event w' :
  P w →
  event ∈ known_events (calls w) →
  (passed ← _event_is_passed self event;
   if passed : bool then _delete_event self w event else Ok w) = Ok w' →
  P w'.
Proof.
  intros Hw Hknown. destruct (_event_is_passed self event) as [[|]|] eqn:Hp; cbn.
  - apply P_delete; assumption.
  - intros [= <-]. exact Hw.
  - discriminate.
Qed.

Lemma process_event_sweep w event w' :
  P w →
  event ∈ known_events (calls w) →
  process_event self w event = Ok w' →
  P w'.
Proof.
  intros Hw Hknown. unfold process_event.
  destruct (_is_recurrent event); [|cbn; apply classify_delete_sweep; assumption].
  destruct (recurringEventId event) as [rid|]; [|discriminate].
  pose proof (P_get w rid Hw) as Hw0.
  destruct (svc_get (service self) (calls w) rid) as [rec_event|] eqn:Hget;
    [|discriminate].
  cbn.
  destruct (_event_is_passed self rec_event) as [pp|] eqn:Hpp; [|discriminate].
  cbn.
  destruct (if pp then _ else _) as [w1|] eqn:Hw1; [|discriminate]. cbn.
  assert (extends w w1) as Hext.
  { eapply extends_trans; [apply (record_get_extends w rid (Ok rec_event))|].
    destruct pp; [eapply _delete_event_extends, Hw1|].
    injection Hw1 as <-. apply extends_refl. }
  apply classify_delete_sweep; [|eapply known_events_extends; eassumption].
  apply (classify_delete_sweep
           (record_call (ApiGet "primary" rid (Ok rec_event)) w) rec_event);
    [exact Hw0| |rewrite Hpp; exact Hw1].
  cbn [calls record_call]. rewrite known_events_app. set_solver.
Qed.

Lemma process_items_sweep w events w' :
  P w →
  Forall (λ event, event ∈ known_events (calls w)) events →
  process_items self w events = Ok w' →
  P w'.
Proof.
  revert w. induction events as [|event rest IH]; intros w Hw Hknown.
  - intros [= <-]. exact Hw.
  - rewrite process_items_cons.
    destruct (process_event self w event) as [w1|] eqn:H1; [|discriminate].
    cbn. apply Forall_cons in Hknown as [Hevent Hrest].
    apply IH; [eapply process_event_sweep; eassumption|].
    eapply Forall_impl; [exact Hrest|].
    intros ev. apply known_events_extends. eapply process_event_extends, H1.
Qed.

Lemma delete_events_from_sweep fuel w page_token :
  P w → at_rest (delete_events_from fuel self w page_token) P.
Proof.
  revert w page_token. induction fuel as [|fuel IH]; intros w page_token Hw.
  - exact Hw.
  - rewrite delete_events_from_S. cbv zeta.
    pose proof (P_list w page_token Hw) as Hw0.
    destruct (svc_list _ _ _) as [events|]; [|exact I].
    destruct (process_items _ _ _) as [w1|] eqn:Hitems; [|exact I].
    assert (P w1) as Hw1.
    { eapply process_items_sweep; [exact Hw0| |exact Hitems].
      apply Forall_forall. intros ev Hev.
      cbn [calls record_call]. rewrite known_events_app. simpl.
      rewrite app_nil_r. apply elem_of_app. right. exact Hev. }
    destruct (token_falsy _); [exact Hw1|apply IH, Hw1].
Qed.

End Sweep.

Lemma justified_more self cs cs' event_id :
  justified self cs event_id → justified self (cs ++ cs') event_id.
Proof.
  intros (event & Hin & Hid & Hp). exists event.
  rewrite known_events_app. split; [set_solver|auto].
Qed.

(** X6. A sweep only acts on what it was given: every status line it prints
    and every delete call it makes is for the identifier of an event that the
    service returned, in a listing or as the series of a listed instance, and
    that [_event_is_passed] classifies passed. *)
Theorem sweep_touches_only_passed_events (fuel : nat) (self : EventDeletion) :
  at_rest (delete_events fuel self init_world) (λ w',
    (∀ event_id res, (event_id, res) ∈ attempts w' →
                     justified self (calls w') event_id) ∧
    (∀ calendar event_id sendUpdates resp,
       ApiDelete calendar event_id sendUpdates resp ∈ calls w' →
       justified self (calls w') event_id)).
Proof.
  apply delete_events_from_sweep.
  - intros w page_token [Hatt Hdel]. cbn [attempts calls record_call]. split.
    + intros i res Hin. apply justified_more, (Hatt i res Hin).
    + intros cal i su resp [Hin|Hin]%elem_of_app.
      * apply justified_more. eapply Hdel, Hin.
      * apply list_elem_of_singleton in Hin. discriminate.
  - intros w rid [Hatt Hdel]. cbn [attempts calls record_call]. split.
    + intros i res Hin. apply justified_more, (Hatt i res Hin).
    + intros cal i su resp [Hin|Hin]%elem_of_app.
      * apply justified_more. eapply Hdel, Hin.
      * apply list_elem_of_singleton in Hin. discriminate.
  - intros w event w' [Hatt Hdel] Hknown Hpassed Hd.
    destruct (_delete_event_shape _ _ _ _ Hd)
      as [->|(_ & res & new & logged & Ha & Hc & _ & _ & _ & Hnew)];
      [split; assumption|].
    assert (justified self (calls w') (id_ event)) as Hj.
    { exists event. rewrite Hc, known_events_app. split; [set_solver|auto]. }
    rewrite Ha. split.
    + intros i r [Hin|Hin]%elem_of_app.
      * rewrite Hc. apply justified_more, (Hatt i r Hin).
      * apply list_elem_of_singleton in Hin. injection Hin as -> ->. exact Hj.
    + intros cal i su resp. rewrite Hc at 1. intros [Hin|Hin]%elem_of_app.
      * rewrite Hc. apply justified_more. eapply Hdel, Hin.
      * destruct (confirm_delete self).
        -- destruct Hnew as (resp' & -> & _).
           apply list_elem_of_singleton in Hin. injection Hin as -> -> -> ->. exact Hj.
        -- destruct Hnew as [-> _]. inversion Hin.
  - split; [intros i res Hin; inversion Hin|intros cal i su resp Hin; inversion Hin].
Qed.

Lemma calls_ok_sweep (fuel : nat) (self : EventDeletion) (w : World)
    (page_token : option string) :
  Forall (call_ok self) (calls w) →
  at_rest (delete_events_from fuel self w page_token) (λ w',
    Forall (call_ok self) (calls w')).
Proof.
  apply (delete_events_from_sweep self (λ w', Forall (call_ok self) (calls w'))).
  - intros w0 tok Hw. cbn [calls record_call].
    apply Forall_app. split; [exact Hw|].
    constructor; [apply list_request_ok|constructor].
  - intros w0 rid Hw. cbn [calls record_call].
    apply Forall_app. split; [exact Hw|]. constructor; [reflexivity|constructor].
  - intros w0 event w' Hw _ _ Hd.
    destruct (_delete_event_shape _ _ _ _ Hd)
      as [->|(_ & res & new & logged & _ & -> & _ & _ & _ & Hnew)]; [exact Hw|].
    apply Forall_app. split; [exact Hw|].
    destruct (confirm_delete self).
    + destruct Hnew as (resp & -> & _). constructor; [split; reflexivity|constructor].
    + destruct Hnew as [-> _]. constructor.
Qed.

(** X7. Every call of a sweep goes to the primary calendar; listings carry
    the parameters of lines 63-71 and deletions ask for no update
    notification. *)
Theorem sweep_calls_primary_calendar (fuel : nat) (self : EventDeletion) :
  at_rest (delete_events fuel self init_world) (λ w',
    Forall (call_ok self) (calls w')).
Proof. apply calls_ok_sweep. constructor. Qed.

(** ** The books of a sweep *)

Lemma deleted_ids_length atts : length (deleted_ids atts) = length (deleted_attempts atts).
Proof. unfold deleted_ids, deleted_attempts. apply length_map. Qed.

Lemma ledger_record self n0 w c :
  is_delete c = false → ledger self n0 w → ledger self n0 (record_call c w).
Proof.
  intros Hc [H1 H2 H3 H4 H5].
  assert (is_accepted_delete c = false) as Hc'.
  { destruct c as [| |? ? ? [|]]; try reflexivity; discriminate. }
  split; cbn [attempts calls sleeps stdout deleted_events record_call].
  - exact H1.
  - exact H2.
  - rewrite List.filter_app. simpl. rewrite Hc, app_nil_r. exact H3.
  - intros Hm. unfold accepted_deletes. rewrite List.filter_app. simpl.
    rewrite Hc', app_nil_r. apply H4, Hm.
  - intros Hm. destruct (H5 Hm) as (Ha & Hb & Hd). split; [exact Ha|].
    split; [exact Hb|]. rewrite List.filter_app, Hd. simpl. rewrite Hc. reflexivity.
Qed.

Lemma ledger_delete self n0 w event w' :
  ledger self n0 w → _delete_event self w event = Ok w' → ledger self n0 w'.
Proof.
  intros Hw Hd. pose proof Hw as [H1 H2 H3 H4 H5].
  pose proof (_delete_event_counted _ _ _ _ H1 Hd) as H1'.
  destruct (_delete_event_shape _ _ _ _ Hd)
    as [->|(Hnew & res & new & logged & Ha & Hc & Hs & Ho & Hlog & Hmode)];
    [exact Hw|].
  assert (id_ event ∉ deleted_ids (attempts w)) as Hfresh.
  { intros Hin. apply Hnew. rewrite H1. apply elem_of_list_to_set, Hin. }
  split.
  - exact H1'.
  - rewrite Ha, deleted_ids_snoc. case_decide; [|rewrite app_nil_r; exact H2].
    apply NoDup_app. split; [exact H2|]. split; [|apply NoDup_singleton].
    intros x Hx ->%list_elem_of_singleton. exact (Hfresh Hx).
  - rewrite Hs, Hc, List.filter_app, length_app, H3. f_equal.
    destruct (confirm_delete self).
    + destruct Hmode as (resp & -> & _). reflexivity.
    + destruct Hmode as [-> _]. reflexivity.
  - intros Hm. rewrite Hm in Hmode. destruct Hmode as (resp & -> & Hres).
    rewrite Ha, Hc, deleted_ids_snoc, length_app, (H4 Hm).
    unfold accepted_deletes. rewrite List.filter_app, length_app. f_equal.
    case_decide as Hr.
    + apply Hres in Hr as [u ->]. reflexivity.
    + destruct resp as [u|e]; [destruct Hr; apply Hres; eauto|reflexivity].
  - intros Hm. rewrite Hm in Hmode. destruct Hmode as [-> ->].
    destruct (H5 Hm) as (Hall & Hlen & Hnone).
    rewrite Ha, Hc, Ho, app_nil_r, !length_app, Hlen, (Hlog eq_refl).
    split; [apply Forall_app; split; [exact Hall|repeat constructor]|].
    split; [simpl; lia|exact Hnone].
Qed.

Lemma ledger_start self w :
  deleted_events w = ∅ → calls w = [] → attempts w = [] → sleeps w = 0 →
  ledger self (length (stdout w)) w.
Proof.
  intros Hset Hcalls Hatt Hsl.
  split; unfold counted; rewrite ?Hset, ?Hcalls, ?Hatt, ?Hsl; simpl;
    try reflexivity; try constructor; auto.
Qed.

Lemma ledger_sweep self fuel w page_token :
  ledger self (length (stdout w)) w →
  at_rest (delete_events_from fuel self w page_token) (ledger self (length (stdout w))).
Proof.
  intros Hw.
  pose proof (delete_events_from_preserves self (ledger self (length (stdout w)))
                (ledger_record self _) (ledger_delete self _) fuel w page_token Hw) as H.
  unfold at_rest. destruct (delete_events_from fuel self w page_token); exact H.
Qed.

Lemma ledger_count self n0 w :
  ledger self n0 w → reported_count w = length (deleted_attempts (attempts w)).
Proof.
  intros [H1 H2 _ _ _]. unfold reported_count. rewrite H1.
  rewrite size_list_to_set by exact H2. apply deleted_ids_length.
Qed.

(** X8. The count reported at the end is the number of status lines that
    said DELETED: no identifier gets two of them. *)
Theorem reported_count_is_deleted_lines (fuel : nat) (self : EventDeletion) :
  at_rest (delete_events fuel self init_world) (λ w',
    NoDup (deleted_ids (attempts w')) ∧
    reported_count w' = length (deleted_attempts (attempts w'))).
Proof.
  pose proof (ledger_sweep self fuel init_world None
                (ledger_start self init_world eq_refl eq_refl eq_refl eq_refl)) as H.
  unfold delete_events, at_rest in *.
  destruct (delete_events_from fuel self init_world None); try exact I;
    (split; [apply H|eapply ledger_count, H]).
Qed.

(** X9. In confirmed mode the count reported is the number of delete calls
    the service accepted, and the sweep paused once before each delete call
    it made. *)
Theorem confirmed_count_is_accepted_deletes (fuel : nat) (self : EventDeletion) :
  confirm_delete self = true →
  at_rest (delete_events fuel self init_world) (λ w',
    reported_count w' = accepted_deletes (calls w') ∧
    sleeps w' = length (List.filter is_delete (calls w'))).
Proof.
  intros Hm.
  pose proof (ledger_sweep self fuel init_world None
                (ledger_start self init_world eq_refl eq_refl eq_refl eq_refl)) as H.
  unfold delete_events, at_rest in *.
  destruct (delete_events_from fuel self init_world None); try exact I;
    (split; [|apply H]);
    rewrite (ledger_count _ _ _ H), <- deleted_ids_length; apply H, Hm.
Qed.

Lemma confirmed_count_is_accepted_deletes_witness :
  ∃ w', delete_events 2 (Sample.sweeper Sample.svc_gone Sample.mar18 true) init_world
        = Finished w' ∧
        reported_count w' = accepted_deletes (calls w') ∧
        accepted_deletes (calls w') = 2 ∧
        sleeps w' = 3.
Proof.
  exists (Run.final (delete_events 2 (Sample.sweeper Sample.svc_gone Sample.mar18 true)
                       init_world)).
  assert (delete_events 2 (Sample.sweeper Sample.svc_gone Sample.mar18 true) init_world
          = Finished (Run.final (delete_events 2
               (Sample.sweeper Sample.svc_gone Sample.mar18 true) init_world))) as E
    by (vm_compute; reflexivity).
  split; [exact E|].
  pose proof (confirmed_count_is_accepted_deletes 2
                (Sample.sweeper Sample.svc_gone Sample.mar18 true) eq_refl) as H.
  rewrite E in H. destruct H as [Hcount _].
  split; [exact Hcount|]. split; vm_compute; reflexivity.
Defined.



(** ** Exceptions *)

Lemma process_items_app self w front back :
  process_items self w (front ++ back) =
  (w1 ← process_items self w front; process_items self w1 back).
Proof.
  revert w. induction front as [|event front IH]; intros w; [reflexivity|].
  simpl app. rewrite !process_items_cons.
  destruct (process_event self w event) as [w1|]; cbn; [apply IH|reflexivity].
Qed.

(** X11. Nothing in [delete_events] catches what the loop body raises: when
    the fetch of a series fails, or when the end of a listed event cannot be
    read, the exception leaves the sweep there; the events behind it on the
    page and the following pages are not looked at. *)
Theorem exception_ends_the_sweep (fuel : nat) (self : EventDeletion) (w w1 : World)
    (page_token : option string) (page : Page) (front back : list Event)
    (event : Event) (e : exn) :
  svc_list (service self) (calls w) (list_request self page_token) = Ok page →
  items page = front ++ event :: back →
  process_items self
    (record_call (ApiList (list_request self page_token) (Ok page)) w) front = Ok w1 →
  (∃ rid, recurringEventId event = Some rid ∧
          svc_get (service self) (calls w1) rid = Raise e) ∨
  (recurringEventId event = None ∧ _event_is_passed self event = Raise e) →
  delete_events_from (S fuel) self w page_token = Aborted e.
Proof.
  intros Hlist Hitems Hfront Hcause.
  assert (process_event self w1 event = Raise e) as Hevent.
  { unfold process_event, _is_recurrent.
    destruct Hcause as [(rid & -> & ->)|[-> ->]]; reflexivity. }
  assert (process_items self
            (record_call (ApiList (list_request self page_token) (Ok page)) w)
            (front ++ event :: back) = Raise e) as Hpage.
  { rewrite process_items_app, Hfront. cbn -[process_items].
    rewrite process_items_cons, Hevent. reflexivity. }
  rewrite delete_events_from_S. cbv zeta. rewrite Hlist, Hitems, Hpage. reflexivity.
Qed.

Lemma exception_ends_the_sweep_witness :
  delete_events_from 1 (Sample.sweeper Broken.svc Sample.mar18 true) init_world None
  = Aborted (TypeError "strptime() argument 1 must be str, not None").
Proof.
  apply (exception_ends_the_sweep 0 (Sample.sweeper Broken.svc Sample.mar18 true)
           init_world
           (Run.after (process_items (Sample.sweeper Broken.svc Sample.mar18 true)
              (record_call
                 (ApiList (list_request (Sample.sweeper Broken.svc Sample.mar18 true) None)
                    (Ok (mk_Page [Sample.E1; Broken.endless; Sample.E3] None)))
                 init_world) [Sample.E1]))
           None (mk_Page [Sample.E1; Broken.endless; Sample.E3] None)
           [Sample.E1] [Sample.E3] Broken.endless).
  - reflexivity.
  - reflexivity.
  - vm_compute; reflexivity.
  - right. split; reflexivity.
Defined.

(** ** The command line *)

Lemma window_value args utcnow :
  window args utcnow =
  Ok (mk_datetime 2000 1 1 0 0 0 0,
      if args_delete_all args then mk_datetime 3000 1 1 0 0 0 0 else utcnow).
Proof. unfold window. destruct (args_delete_all args); vm_compute; reflexivity. Qed.

Lemma stdout_sweep self base fuel w page_token :
  (∃ rest, stdout w = base ++ rest) →
  at_rest (delete_events_from fuel self w page_token)
    (λ w', ∃ rest, stdout w' = base ++ rest).
Proof.
  intros Hw.
  apply (delete_events_from_preserves self (λ w', ∃ rest, stdout w' = base ++ rest));
    [| |exact Hw].
  - intros w0 c _ H0. exact H0.
  - intros w0 event w' [rest H0] Hd.
    destruct (ext_stdout _ _ (_delete_event_extends _ _ _ _ Hd)) as [new Hnew].
    exists (rest ++ new). rewrite Hnew, H0, app_assoc. reflexivity.
Qed.

(** What [main] hands to [delete_events]. *)
Lemma main_unfold args utcnow svc fuel :
  let time_max := if args_delete_all args then mk_datetime 3000 1 1 0 0 0 0 else utcnow in
  let time_min := mk_datetime 2000 1 1 0 0 0 0 in
  let w0 := print (banner time_min time_max) init_world in
  let w1 := if args_confirm_delete args then w0 else print simulation_notice w0 in
  let ed := mk_EventDeletion time_min time_max (args_confirm_delete args) svc in
  main args utcnow svc fuel =
  match delete_events_from fuel ed w1 None with
  | Finished w2 => Finished (print (summary_text w2) w2)
  | Aborted e => Aborted e
  | Running w2 page_token => Running w2 page_token
  end.
Proof. unfold main. rewrite window_value. reflexivity. Qed.

Lemma main_start_ledger self (confirm : bool) line :
  let w0 := print line init_world in
  let w1 := if confirm then w0 else print simulation_notice w0 in
  ledger self (length (stdout w1)) w1.
Proof. intros w0 w1. apply ledger_start; destruct confirm; reflexivity. Qed.

Lemma ledger_print self n0 line w :
  ledger self n0 w →
  counted (print line w) ∧
  reported_count (print line w) = length (deleted_attempts (attempts (print line w))) ∧
  sleeps (print line w) = length (List.filter is_delete (calls (print line w))).
Proof.
  intros H. split; [exact (led_counted _ _ _ H)|].
  split; [exact (ledger_count _ _ _ H)|exact (led_sleeps _ _ _ H)].
Qed.

(** X12. Without [--confirm-delete] the program only simulates: it prints
    the banner and the simulation notice first, and it makes no delete call
    and never pauses, whatever the service lists. *)
Theorem main_simulates_by_default (args : Namespace) (utcnow : datetime)
    (svc : Service) (fuel : nat) :
  args_confirm_delete args = false →
  at_rest (main args utcnow svc fuel) (λ w,
    no_delete_calls w ∧ sleeps w = 0 ∧
    ∃ rest,
      stdout w =
      banner (mk_datetime 2000 1 1 0 0 0 0)
        (if args_delete_all args then mk_datetime 3000 1 1 0 0 0 0 else utcnow)
      :: simulation_notice :: rest).
Proof.
  intros Hm. rewrite main_unfold. cbv zeta. rewrite Hm.
  set (tmax := if args_delete_all args then _ else _).
  set (ed := mk_EventDeletion _ tmax false svc).
  set (w1 := print simulation_notice _).
  pose proof (ledger_sweep ed fuel w1 None (main_start_ledger ed false _)) as Hl.
  pose proof (stdout_sweep ed (stdout w1) fuel w1 None
                (ex_intro _ [] (eq_sym (app_nil_r _)))) as Hs.
  unfold at_rest in *.
  destruct (delete_events_from fuel ed w1 None) as [w2| |w2 tok]; [|exact I|].
  - destruct (led_simulated _ _ _ Hl eq_refl) as (_ & _ & Hnone).
    destruct Hs as [rest Hs].
    split; [exact Hnone|]. split.
    + cbn [sleeps print]. rewrite (led_sleeps _ _ _ Hl), Hnone. reflexivity.
    + exists (rest ++ [summary_text w2]). cbn [stdout print]. rewrite Hs. reflexivity.
  - destruct (led_simulated _ _ _ Hl eq_refl) as (_ & _ & Hnone).
    destruct Hs as [rest Hs].
    split; [exact Hnone|]. split.
    + rewrite (led_sleeps _ _ _ Hl), Hnone. reflexivity.
    + exists rest. exact Hs.
Qed.

Lemma main_simulates_by_default_witness :
  ∃ w, main (mk_Namespace false true) Sample.mar18 Sample.svc_refusing 2 = Finished w ∧
       no_delete_calls w ∧ sleeps w = 0 ∧ length (stdout w) = 6.
Proof.
  exists (Run.final (main (mk_Namespace false true) Sample.mar18 Sample.svc_refusing 2)).
  assert (main (mk_Namespace false true) Sample.mar18 Sample.svc_refusing 2
          = Finished (Run.final (main (mk_Namespace false true) Sample.mar18
                                   Sample.svc_refusing 2))) as E
    by (vm_compute; reflexivity).
  split; [exact E|].
  pose proof (main_simulates_by_default (mk_Namespace false true) Sample.mar18
                Sample.svc_refusing 2 eq_refl) as H.
  rewrite E in H. destruct H as (Hnone & Hsleeps & _).
  split; [exact Hnone|]. split; [exact Hsleeps|vm_compute; reflexivity].
Defined.

(** X13. When the program ends, the last thing it prints is the summary, and
    the number in it is the number of status lines that said DELETED; with
    [--confirm-delete] that is the number of delete calls the service
    accepted, without it the number of all status lines. *)
Theorem main_summary_counts_deleted_lines (args : Namespace) (utcnow : datetime)
    (svc : Service) (fuel : nat) (w : World) :
  main args utcnow svc fuel = Finished w →
  last (stdout w) = Some (summary_text w) ∧
  reported_count w = length (deleted_attempts (attempts w)) ∧
  (if args_confirm_delete args
   then reported_count w = accepted_deletes (calls w)
   else reported_count w = length (attempts w)).
Proof.
  rewrite main_unfold. cbv zeta.
  set (tmax := if args_delete_all args then _ else _).
  set (ed := mk_EventDeletion _ tmax (args_confirm_delete args) svc).
  set (w1 := if args_confirm_delete args then _ else _).
  pose proof (ledger_sweep ed fuel w1 None
                (main_start_ledger ed (args_confirm_delete args) _)) as Hl.
  unfold at_rest in Hl.
  destruct (delete_events_from fuel ed w1 None) as [w2| |w2 tok]; try discriminate.
  intros [= <-].
  split; [cbn [stdout print]; apply last_snoc|].
  split; [exact (ledger_count _ _ _ Hl)|].
  change (reported_count (print (summary_text w2) w2)) with (reported_count w2).
  cbn [calls attempts print].
  rewrite (ledger_count _ _ _ Hl).
  destruct (args_confirm_delete args) eqn:Hm.
  - rewrite <- deleted_ids_length. exact (led_confirmed _ _ _ Hl eq_refl).
  - destruct (led_simulated _ _ _ Hl eq_refl) as (Hall & _ & _).
    f_equal. clear -Hall. unfold deleted_attempts.
    induction Hall as [|a atts Hx _ IH]; [reflexivity|].
    simpl. rewrite Hx, IH. reflexivity.
Qed.

Lemma main_summary_counts_deleted_lines_witness :
  ∃ w, main (mk_Namespace true false) Sample.mar18 Sample.svc_gone 2 = Finished w ∧
       last (stdout w) = Some (summary_text w) ∧
       reported_count w = 2 ∧
       length (attempts w) = 3.
Proof.
  exists (Run.final (main (mk_Namespace true false) Sample.mar18 Sample.svc_gone 2)).
  assert (main (mk_Namespace true false) Sample.mar18 Sample.svc_gone 2
          = Finished (Run.final (main (mk_Namespace true false) Sample.mar18
                                   Sample.svc_gone 2))) as E
    by (vm_compute; reflexivity).
  split; [exact E|].
  destruct (main_summary_counts_deleted_lines _ _ _ _ _ E) as (Hlast & Hcount & _).
  split; [exact Hlast|]. split; [|vm_compute; reflexivity].
  rewrite Hcount. vm_compute; reflexivity.
Defined.

(** X14. The requests of the program: every listing asks for the events from
    2000-01-01 on, up to the present moment or, with [--delete-all], up to
    3000-01-01, and every call goes to the primary calendar. *)
Theorem main_window_in_requests (args : Namespace) (utcnow : datetime)
    (svc : Service) (fuel : nat) :
  at_rest (main args utcnow svc fuel) (λ w,
    Forall (λ c,
      match c with
      | ApiList req _ =>
          timeMin req = "2000-01-01T00:00:00Z" ∧
          timeMax req = (if args_delete_all args then "3000-01-01T00:00:00Z"
                         else Datetime.isoformat utcnow ++ "Z")%string ∧
          calendarId req = "primary" ∧ maxResults req = 100
      | ApiGet calendar _ _ => calendar = "primary"
      | ApiDelete calendar _ _ _ => calendar = "primary"
      end) (calls w)).
Proof.
  rewrite main_unfold. cbv zeta.
  set (tmax := if args_delete_all args then _ else _).
  set (ed := mk_EventDeletion _ tmax (args_confirm_delete args) svc).
  set (w1 := if args_confirm_delete args then _ else _).
  assert (Forall (call_ok ed) (calls w1)) as H1.
  { subst w1. destruct (args_confirm_delete args); constructor. }
  pose proof (calls_ok_sweep fuel ed w1 None H1) as H.
  assert (∀ cs, Forall (call_ok ed) cs →
            Forall (λ c,
              match c with
              | ApiList req _ =>
                  timeMin req = "2000-01-01T00:00:00Z" ∧
                  timeMax req = (if args_delete_all args then "3000-01-01T00:00:00Z"
                                 else Datetime.isoformat utcnow ++ "Z")%string ∧
                  calendarId req = "primary" ∧ maxResults req = 100
              | ApiGet calendar _ _ => calendar = "primary"
              | ApiDelete calendar _ _ _ => calendar = "primary"
              end) cs) as Hconv.
  { intros cs Hcs. eapply Forall_impl; [exact Hcs|].
    intros [req resp|cal rid resp|cal i su resp]; cbn.
    - intros (Hcal & Hmin & Hmax & Hres & _). rewrite Hmin, Hmax.
      split; [reflexivity|]. split; [|auto].
      subst ed tmax. cbn [time_max]. destruct (args_delete_all args); reflexivity.
    - auto.
    - intros [? _]. assumption. }
  unfold at_rest in *.
  destruct (delete_events_from fuel ed w1 None) as [w2| |w2 tok];
    [|exact I|]; apply Hconv, H.
Qed.

Lemma strptime_valid s fmt d : Datetime.strptime s fmt = Some d → Datetime.valid d = true.
Proof.
  unfold Datetime.strptime.
  destruct (Re.match_groups _ s) as [[caps [|? ?]]|]; try discriminate.
  destruct (Datetime.valid _) eqn:Hv; [|discriminate].
  intros [= <-]. exact Hv.
Qed.

Lemma end_instant_valid event d : end_instant event = Some d → Datetime.valid d = true.
Proof.
  unfold end_instant.
  destruct (dateTime (end_ event)); [apply strptime_valid|].
  destruct (date (end_ event)); [apply strptime_valid|discriminate].
Qed.

Lemma _get_datetime_end_ok event d :
  end_instant event = Some d → _get_datetime event key_end = Ok d.
Proof.
  unfold end_instant, _get_datetime, strptime. cbn [event_item].
  destruct (dateTime (end_ event)); [intros ->; reflexivity|].
  destruct (date (end_ event)); [intros ->; reflexivity|discriminate].
Qed.

Lemma lt_new_year d y :
  Datetime.valid d = true →
  Datetime.lt d (mk_datetime y 1 1 0 0 0 0) = (year d <? y).
Proof.
  intros Hv. unfold Datetime.valid in Hv.
  repeat (apply andb_prop in Hv as [Hv ?]).
  assert (1 ≤ month d) as Hm by (apply Nat.leb_le; assumption).
  assert (1 ≤ day d) as Hd by (apply Nat.leb_le; assumption).
  clear -Hm Hd.
  unfold Datetime.lt, Datetime.key.
  cbn [Datetime.lex_lt year month day hour minute second microsecond].
  destruct (year d <? y); [reflexivity|]. cbn [orb].
  destruct (year d =? y); [|reflexivity]. cbn [andb].
  destruct (Nat.ltb_spec (month d) 1); [lia|]. cbn [orb].
  destruct (month d =? 1); [|reflexivity]. cbn [andb].
  destruct (Nat.ltb_spec (day d) 1); [lia|]. cbn [orb].
  destruct (day d =? 1); [|reflexivity]. cbn [andb].
  repeat match goal with
         | |- context [?a <? 0] => destruct (Nat.ltb_spec a 0); [lia|]
         end.
  cbn [orb]. rewrite !andb_false_r. reflexivity.
Qed.

(** X15. With [--delete-all] the window closes at 3000-01-01: an event
    without recurrence is classified passed exactly when it ends in a year
    before 3000. *)
Theorem delete_all_reaches_year_3000 (args : Namespace) (utcnow : datetime)
    (time_min time_max : datetime) (confirm : bool) (svc : Service)
    (event : Event) (d : datetime) :
  args_delete_all args = true →
  window args utcnow = Ok (time_min, time_max) →
  recurrence event = None →
  end_instant event = Some d →
  _event_is_passed (mk_EventDeletion time_min time_max confirm svc) event
  = Ok (year d <? 3000).
Proof.
  intros Hall Hwin Hrec Hend.
  rewrite window_value, Hall in Hwin. injection Hwin as <- <-.
  unfold _event_is_passed. rewrite Hrec, (_get_datetime_end_ok _ _ Hend).
  change (Ok (Datetime.lt d (mk_datetime 3000 1 1 0 0 0 0)) = Ok (year d <? 3000)).
  rewrite (lt_new_year d 3000 (end_instant_valid _ _ Hend)). reflexivity.
Qed.

Lemma delete_all_reaches_year_3000_witness :
  _event_is_passed
    (mk_EventDeletion Sample.y2000 (mk_datetime 3000 1 1 0 0 0 0) false Sample.svc_ok)
    (mk_Event "far" None None (Sample.on_day "2999-12-30") (Sample.on_day "2999-12-31") None)
  = Ok true.
Proof.
  exact (delete_all_reaches_year_3000 (mk_Namespace false true) Sample.mar18
           Sample.y2000 (mk_datetime 3000 1 1 0 0 0 0) false Sample.svc_ok
           (mk_Event "far" None None (Sample.on_day "2999-12-30")
              (Sample.on_day "2999-12-31") None)
           (mk_datetime 2999 12 31 0 0 0 0)
           eq_refl eq_refl eq_refl eq_refl).
Defined.

(** ** Repeated deletions *)

Lemma failed_delete_is_retried_witness :
  ∃ w1 w2,
    _delete_event (Sample.sweeper Sample.svc_refusing Sample.mar18 true) init_world
      Sample.E1 = Ok w1 ∧
    "e1" ∉ deleted_events w1 ∧
    _delete_event (Sample.sweeper Sample.svc_refusing Sample.mar18 true) w1
      Sample.E1 = Ok w2 ∧
    delete_calls "e1" (calls w2) = 2.
Proof.
  exact (failed_delete_is_retried
           (Sample.sweeper Sample.svc_refusing Sample.mar18 true) init_world
           Sample.E1 Sample.E1 (HttpError 500 "Backend Error")
           (mk_datetime 2017 3 10 9 0 0 0) (mk_datetime 2017 3 10 9 0 0 0)
           eq_refl (not_elem_of_empty _) eq_refl eq_refl eq_refl eq_refl).
Defined.

(** ** Fetches *)

Lemma listed_app cs cs' : listed (cs ++ cs') = listed cs ++ listed cs'.
Proof.
  induction cs as [|[req [page|e]|cal rid resp|cal i su resp] cs IH]; simpl;
    rewrite ?IH, ?app_assoc; reflexivity.
Qed.

Lemma get_calls_app cs cs' : get_calls (cs ++ cs') = get_calls cs + get_calls cs'.
Proof. unfold get_calls. rewrite List.filter_app, length_app. reflexivity. Qed.

Lemma _delete_event_fetches self w event w' :
  _delete_event self w event = Ok w' →
  get_calls (calls w') = get_calls (calls w) ∧ listed (calls w') = listed (calls w).
Proof.
  intros Hd.
  destruct (_delete_event_shape _ _ _ _ Hd)
    as [->|(_ & res & new & logged & _ & -> & _ & _ & _ & Hnew)]; [auto|].
  rewrite get_calls_app, listed_app.
  destruct (confirm_delete self).
  - destruct Hnew as (resp & -> & _). cbn. rewrite app_nil_r. auto.
  - destruct Hnew as [-> _]. cbn. rewrite app_nil_r. auto.
Qed.

Lemma classify_delete_fetches self w event w' :
  (passed ← _event_is_passed self event;
   if passed : bool then _delete_event self w event else Ok w) = Ok w' →
  get_calls (calls w') = get_calls (calls w) ∧ listed (calls w') = listed (calls w).
Proof.
  destruct (_event_is_passed self event) as [[|]|]; cbn.
  - apply _delete_event_fetches.
  - intros [= <-]. auto.
  - discriminate.
Qed.

Lemma process_event_fetches self w event w' :
  process_event self w event = Ok w' →
  get_calls (calls w') = get_calls (calls w) + (if _is_recurrent event then 1 else 0) ∧
  listed (calls w') = listed (calls w).
Proof.
  unfold process_event.
  destruct (_is_recurrent event).
  - destruct (recurringEventId event) as [rid|]; [|discriminate].
    destruct (svc_get (service self) (calls w) rid) as [rec_event|]; [|discriminate].
    cbn.
    destruct (_event_is_passed self rec_event) as [pp|] eqn:Hpp; [|discriminate].
    cbn.
    destruct (if pp then _ else _) as [w1|] eqn:Hw1; [|discriminate]. cbn.
    intros [H1 H2]%classify_delete_fetches.
    assert (get_calls (calls w1) = get_calls (calls w) + 1 ∧
            listed (calls w1) = listed (calls w)) as [H3 H4].
    { assert (get_calls (calls (record_call (ApiGet "primary" rid (Ok rec_event)) w))
              = get_calls (calls w) + 1 ∧
              listed (calls (record_call (ApiGet "primary" rid (Ok rec_event)) w))
              = listed (calls w)) as [H3 H4].
      { cbn [calls record_call]. rewrite get_calls_app, listed_app. cbn.
        rewrite app_nil_r. auto. }
      destruct pp.
      - apply _delete_event_fetches in Hw1 as [-> ->]. auto.
      - injection Hw1 as <-. auto. }
    rewrite H1, H2, H3, H4. auto.
  - cbn. intros [H1 H2]%classify_delete_fetches. rewrite H1, H2. auto.
Qed.

Lemma process_items_fetches self w events w' :
  process_items self w events = Ok w' →
  get_calls (calls w') = get_calls (calls w) + length (List.filter _is_recurrent events) ∧
  listed (calls w') = listed (calls w).
Proof.
  revert w. induction events as [|event rest IH]; intros w.
  - intros [= <-]. simpl. auto.
  - rewrite process_items_cons.
    destruct (process_event self w event) as [w1|] eqn:H1; [|discriminate].
    cbn -[process_items]. intros [H2 H3]%IH.
    apply process_event_fetches in H1 as [H4 H5].
    rewrite H2, H3, H4, H5. split; [|reflexivity].
    simpl. destruct (_is_recurrent event); simpl; lia.
Qed.

Lemma fetches_sweep self fuel w page_token :
  get_calls (calls w) = length (List.filter _is_recurrent (listed (calls w))) →
  at_rest (delete_events_from fuel self w page_token) (λ w',
    get_calls (calls w') = length (List.filter _is_recurrent (listed (calls w')))).
Proof.
  revert w page_token. induction fuel as [|fuel IH]; intros w page_token Hw.
  - exact Hw.
  - rewrite delete_events_from_S. cbv zeta.
    destruct (svc_list _ _ _) as [page|]; [|exact I].
    destruct (process_items _ _ _) as [w1|] eqn:Hitems; [|exact I].
    apply process_items_fetches in Hitems as [H1 H2].
    cbn [calls record_call] in H1, H2.
    rewrite get_calls_app, listed_app in *. cbn in H1, H2.
    rewrite app_nil_r in H2.
    assert (get_calls (calls w1)
            = length (List.filter _is_recurrent (listed (calls w1)))) as Hw1.
    { rewrite H1, H2, List.filter_app, length_app, Hw. lia. }
    destruct (token_falsy _); [exact Hw1|apply IH, Hw1].
Qed.

(** X16. The series is fetched anew for every instance: a sweep makes one
    [get] call for each listed event that carries a [recurringEventId], also
    when the series was fetched, or deleted, before. *)
Theorem series_fetched_for_every_instance (fuel : nat) (self : EventDeletion) :
  at_rest (delete_events fuel self init_world) (λ w',
    get_calls (calls w') = length (List.filter _is_recurrent (listed (calls w')))).
Proof. apply fetches_sweep. reflexivity. Qed.
